(** * samples/src/get_from_callbacks_api.cc

    A shallow embedding of the sample's [main]: the stream request it
    builds, the three console callbacks it registers, and the display
    loop.  The SDK ([mynteyed]) and OpenCV are outside the sample: every
    call into them is recorded as an [event], and what they answer is read
    from an environment ([Env]). *)

From Stdlib Require Import ZArith Lia Ascii String.
From stdpp Require Import base list relations.

Local Open Scope string_scope.
Local Open Scope Z_scope.
Local Open Scope list_scope.

(** ** SDK enumerations, with the members the sample names *)

Inductive Stream := IMAGE_LEFT_COLOR | IMAGE_RIGHT_COLOR | IMAGE_DEPTH.

Inductive ImageFormat := COLOR_BGR | DEPTH_BGR.

Inductive ColorMode := COLOR_RAW | COLOR_RECTIFIED.

Inductive DepthMode := DEPTH_COLORFUL | DEPTH_GRAY | DEPTH_RAW.

Inductive StreamMode :=
  STREAM_640x480 | STREAM_1280x720 | STREAM_1280x480 | STREAM_2560x720.

(** [CVPainter]'s anchor of an overlay. *)
Inductive Gravity := TOP_LEFT | TOP_RIGHT | BOTTOM_RIGHT.

Global Instance Stream_eq_dec : EqDecision Stream.
Proof. solve_decision. Defined.

Global Instance DepthMode_eq_dec : EqDecision DepthMode.
Proof. solve_decision. Defined.

Global Instance StreamMode_eq_dec : EqDecision StreamMode.
Proof. solve_decision. Defined.

(** ** The stream request (lines 31-61) *)

Record StreamRequest := {
  framerate : Z;
  color_mode : ColorMode;
  depth_mode : DepthMode;
  stream_mode : StreamMode;
  state_ae : bool;
  state_awb : bool
}.

Definition set_framerate (v : Z) (r : StreamRequest) : StreamRequest :=
  {| framerate := v; color_mode := color_mode r; depth_mode := depth_mode r;
     stream_mode := stream_mode r; state_ae := state_ae r;
     state_awb := state_awb r |}.

Definition set_stream_mode (v : StreamMode) (r : StreamRequest) : StreamRequest :=
  {| framerate := framerate r; color_mode := color_mode r;
     depth_mode := depth_mode r; stream_mode := v; state_ae := state_ae r;
     state_awb := state_awb r |}.

(** The block of lines 33-61: the two assignments that are not commented
    out, in their order. *)
Definition configure_request (request : StreamRequest) : StreamRequest :=
  set_stream_mode STREAM_2560x720 (set_framerate 30 request).

(** The legal framerates, from the comment of line 34,
    [Framerate: 10(default), [0,60], [0,30](STREAM_2560x720)]: the pair of
    the least and the greatest framerate of a stream mode. *)
Definition framerate_range (m : StreamMode) : Z * Z :=
  match m with
  | STREAM_2560x720 => (0, 30)
  | _ => (0, 60)
  end.

Definition framerate_legal (r : StreamRequest) : bool :=
  (fst (framerate_range (stream_mode r)) <=? framerate r)
  && (framerate r <=? snd (framerate_range (stream_mode r))).

(** ** Values held through SDK pointers *)

(** A [std::shared_ptr<Image>] that is not null, named by where it comes
    from: the frame [GetStreamData] returned for a stream in an iteration
    of the display loop, or the result of [To] on such an image. *)
Inductive ImagePtr :=
| Frame (s : Stream) (iteration : nat)
| To (i : ImagePtr) (f : ImageFormat).

Fixpoint stream_of (i : ImagePtr) : Stream :=
  match i with
  | Frame s _ => s
  | To j _ => stream_of j
  end.

(** [StreamData], of which the loop reads [img] only; [None] is the null
    pointer. *)
Record StreamData := { img : option ImagePtr }.

(** A [cv::Mat], by the image it was made from. *)
Inductive Mat := ToMat (i : ImagePtr).

(** [util::Counter], by the number of calls of [Update]. *)
Record Counter := { updates : nat }.

Definition Update (c : Counter) : Counter := {| updates := S (updates c) |}.

(** ** What the SDK and OpenCV answer *)

Record Env := {
  (** the request [SelectStreamRequest] returns *)
  selected_request : StreamRequest;
  (** [IsOpened()] after [ConfigStreamRequest] *)
  is_opened : bool;
  (** [Supports(stream)] *)
  supports : Stream -> bool;
  (** whether [GetStreamData(stream).img] is non-null in an iteration *)
  frame_ready : nat -> Stream -> bool;
  (** whether [image->To(format)] is non-null *)
  converts : ImagePtr -> ImageFormat -> bool;
  (** what [cv::waitKey(1)] returns in an iteration, an [int] *)
  wait_key : nat -> Z
}.

(** ** Sample environments *)

(** The defaults the comments of lines 34-58 give; the default stream
    mode is not among them. *)
Definition default_request : StreamRequest :=
  {| framerate := 10; color_mode := COLOR_RAW; depth_mode := DEPTH_COLORFUL;
     stream_mode := STREAM_1280x720; state_ae := true; state_awb := true |}.

(** The device does not open. *)
Definition env_closed : Env :=
  {| selected_request := default_request; is_opened := false;
     supports := fun _ => true; frame_ready := fun _ _ => true;
     converts := fun _ _ => true; wait_key := fun _ => -1 |}.

(** All streams deliver and convert; no key in the first iteration, ESC
    with a modifier bit above the low byte in the second. *)
Definition env_esc_second : Env :=
  {| selected_request := default_request; is_opened := true;
     supports := fun _ => true; frame_ready := fun _ _ => true;
     converts := fun _ _ => true;
     wait_key := fun k => match k with 1%nat => 1048603 | _ => -1 end |}.

(** All streams deliver, no conversion succeeds. *)
Definition env_no_conversion : Env :=
  {| selected_request := default_request; is_opened := true;
     supports := fun _ => true; frame_ready := fun _ _ => true;
     converts := fun _ _ => false; wait_key := fun _ => 27 |}.

(** No right stream, and no frame is ever there; 'q' at once. *)
Definition env_no_frames : Env :=
  {| selected_request := default_request; is_opened := true;
     supports := fun s => match s with IMAGE_RIGHT_COLOR => false | _ => true end;
     frame_ready := fun _ _ => false; converts := fun _ _ => true;
     wait_key := fun _ => 113 |}.

(** How a computation ends: with a value; by dereferencing a null
    [shared_ptr]; or still inside the display loop when the iterations
    granted to it are used up. *)
Inductive outcome (A : Type) :=
| Ret (a : A)
| NullDeref
| Unfinished.

Arguments Ret {A} a.
Arguments NullDeref {A}.
Arguments Unfinished {A}.

Section Sample.

(** The type of the values the callbacks print through [operator<<]
    (frame ids, timestamps, exposure times, axis values, temperatures,
    image types): their C++ types are declared in the SDK's headers. *)
Context {value : Type}.

(** The two macros of the SDK's headers the motion callback compares the
    sample's flag with. *)
Variable MYNTEYE_IMU_ACCEL MYNTEYE_IMU_GYRO : Z.

(** What is sent to a [std::ostream] by one [operator<<]. *)
Inductive printable :=
| PStr (s : string)
| PVal (v : value)
| PEndl
| PFlush.

(** The calls [main] makes into the SDK, OpenCV and the standard streams,
    in the order it makes them. *)
Inductive event :=
| Cout (p : printable)
| Cerr (p : printable)
| ApiCreate
| ApiSelectStreamRequest
| ApiEnableImageInfo (sync : bool)
| ApiEnableMotionDatas (max_size : Z)
| ApiSetImgInfoCallback
| ApiSetStreamCallback (s : Stream)
| ApiSetMotionCallback
| ApiConfigStreamRequest (r : StreamRequest)
| ApiIsOpened
| ApiSupports (s : Stream)
| ApiWaitForStreams
| ApiGetStreamData (s : Stream)
| ApiClose
| ImageTo (i : ImagePtr) (f : ImageFormat)
| ImageToMat (i : ImagePtr)
| CounterUpdate
| DrawSize (m : Mat) (g : Gravity)
| DrawStreamData (m : Mat) (d : StreamData) (g : Gravity)
| DrawInformation (m : Mat) (fps_of : Counter) (g : Gravity)
| NamedWindow (winname : string)
| Imshow (winname : string) (m : Mat)
| WaitKey (delay : Z).

(** ** A trace-and-failure monad for [main] *)

Definition run (A : Type) : Type := list event * outcome A.

Definition ret {A} (a : A) : run A := ([], Ret a).

Definition bind {A B} (m : run A) (f : A -> run B) : run B :=
  match m with
  | (t, Ret a) => let (t', r) := f a in (t ++ t', r)
  | (t, NullDeref) => (t, NullDeref)
  | (t, Unfinished) => (t, Unfinished)
  end.

Definition emit (e : event) : run unit := ([e], Ret tt).

(** [p->...] where [p] is a null [shared_ptr]. *)
Definition null_deref {A} : run A := ([], NullDeref).

Definition unfinished {A} : run A := ([], Unfinished).

#[global] Instance run_ret : MRet run := @ret.
#[global] Instance run_bind : MBind run := fun A B f m => bind m f.

Definition trace {A} (m : run A) : list event := fst m.
Definition result {A} (m : run A) : outcome A := snd m.

(** ** [main], lines 28-192 *)

Section Main.

Variable env : Env.

(** [static_cast<char>] of an [int], with [char] signed and of 8 bits. *)
Definition to_char (z : Z) : Z :=
  let u := z mod 256 in if u <? 128 then u else u - 256.

Definition code_of (c : ascii) : Z := Z.of_nat (nat_of_ascii c).

(** The condition of line 184. *)
Definition is_quit_key (key : Z) : bool :=
  (key =? 27) || (key =? code_of "q") || (key =? code_of "Q").

(** [api->GetStreamData(s)] in iteration [k]. *)
Definition GetStreamData (k : nat) (s : Stream) : run StreamData :=
  emit (ApiGetStreamData s);;
  mret {| img := if frame_ready env k s then Some (Frame s k) else None |}.

(** [i->To(f)], whose result may be null. *)
Definition image_To (i : ImagePtr) (f : ImageFormat) : run (option ImagePtr) :=
  emit (ImageTo i f);;
  mret (if converts env i f then Some (To i f) else None).

(** [p->ToMat()]. *)
Definition image_ToMat (p : option ImagePtr) : run Mat :=
  match p with
  | Some i => emit (ImageToMat i);; mret (ToMat i)
  | None => null_deref
  end.

(** Lines 28-31 and 63-117: the request, the two [Enable] calls, the
    registration of the callbacks, [ConfigStreamRequest]. *)
Definition setup : run StreamRequest :=
  emit ApiCreate;;
  emit ApiSelectStreamRequest;;
  let request := configure_request (selected_request env) in
  emit (ApiEnableImageInfo false);;
  emit (ApiEnableMotionDatas 0);;
  emit ApiSetImgInfoCallback;;
  emit (ApiSetStreamCallback IMAGE_LEFT_COLOR);;
  emit (ApiSetStreamCallback IMAGE_RIGHT_COLOR);;
  emit (ApiSetStreamCallback IMAGE_DEPTH);;
  emit ApiSetMotionCallback;;
  emit (ApiConfigStreamRequest request);;
  mret request.

Section Loop.

(** The locals of [main] the loop reads. *)
Variable request : StreamRequest.
Variable is_left_ok is_right_ok is_depth_ok : bool.

(** Lines 146-156. *)
Definition render_left (k : nat) (counter : Counter) : run unit :=
  if is_left_ok then
    left_color ← GetStreamData k IMAGE_LEFT_COLOR;
    match img left_color with
    | Some i =>
        p ← image_To i COLOR_BGR;
        left ← image_ToMat p;
        emit (DrawSize left TOP_LEFT);;
        emit (DrawStreamData left left_color TOP_RIGHT);;
        emit (DrawInformation left counter BOTTOM_RIGHT);;
        emit (Imshow "left color" left)
    | None => mret tt
    end
  else mret tt.

(** Lines 158-166. *)
Definition render_right (k : nat) : run unit :=
  if is_right_ok then
    right_color ← GetStreamData k IMAGE_RIGHT_COLOR;
    match img right_color with
    | Some i =>
        p ← image_To i COLOR_BGR;
        right ← image_ToMat p;
        emit (DrawSize right TOP_LEFT);;
        emit (DrawStreamData right right_color TOP_RIGHT);;
        emit (Imshow "right color" right)
    | None => mret tt
    end
  else mret tt.

(** Lines 168-181. *)
Definition render_depth (k : nat) : run unit :=
  if is_depth_ok then
    image_depth ← GetStreamData k IMAGE_DEPTH;
    match img image_depth with
    | Some i =>
        depth ← (if decide (depth_mode request = DEPTH_COLORFUL) then
                    p ← image_To i DEPTH_BGR;
                    image_ToMat p
                  else image_ToMat (Some i));
        emit (DrawSize depth TOP_LEFT);;
        emit (DrawStreamData depth image_depth TOP_RIGHT);;
        emit (Imshow "depth" depth)
    | None => mret tt
    end
  else mret tt.

(** Lines 143-183, one pass through the body of the loop up to the key
    that is read: iteration [k] starts with the counter updated [k]
    times.  The result is [key]. *)
Definition loop_body (k : nat) : run Z :=
  emit ApiWaitForStreams;;
  emit CounterUpdate;;
  let counter := Update {| updates := k |} in
  render_left k counter;;
  render_right k;;
  render_depth k;;
  emit (WaitKey 1);;
  mret (to_char (wait_key env k)).

(** Lines 142-187, [for (;;)]: [fuel] bounds the iterations that are
    followed, [k] counts the ones before.  The result is the number of
    iterations made when the loop is left through [break]. *)
Fixpoint display_loop (fuel k : nat) : run nat :=
  match fuel with
  | O => unfinished
  | S fuel' =>
      key ← loop_body k;
      if is_quit_key key then mret (S k) else display_loop fuel' (S k)
  end.

End Loop.

(** Lines 133-138. *)
Definition create_windows (is_left_ok is_right_ok is_depth_ok : bool) : run unit :=
  (if is_left_ok then emit (NamedWindow "left color") else mret tt);;
  (if is_right_ok then emit (NamedWindow "right color") else mret tt);;
  (if is_depth_ok then emit (NamedWindow "depth") else mret tt).

(** [main]; the result is the value it returns. *)
Definition main (fuel : nat) : run Z :=
  request ← setup;
  emit (Cout PEndl);;
  emit ApiIsOpened;;
  if negb (is_opened env) then
    emit (Cerr (PStr "Error: Open camera failed"));;
    emit (Cerr PEndl);;
    mret 1
  else
    emit (Cout (PStr "Open device success"));;
    emit (Cout PEndl);;
    emit (Cout PEndl);;
    emit (Cout (PStr "Press ESC/Q on Windows to terminate"));;
    emit (Cout PEndl);;
    emit (ApiSupports IMAGE_LEFT_COLOR);;
    let is_left_ok := supports env IMAGE_LEFT_COLOR in
    emit (ApiSupports IMAGE_RIGHT_COLOR);;
    let is_right_ok := supports env IMAGE_RIGHT_COLOR in
    emit (ApiSupports IMAGE_DEPTH);;
    let is_depth_ok := supports env IMAGE_DEPTH in
    create_windows is_left_ok is_right_ok is_depth_ok;;
    display_loop request is_left_ok is_right_ok is_depth_ok fuel 0;;
    emit ApiClose;;
    mret 0.

End Main.

(** ** The callbacks, lines 69-114 *)

(** What a callback reads through the pointer it is given. *)
Record ImgInfo := {
  frame_id : value;
  timestamp : value;
  exposure_time : value
}.

(** [Image], by the two methods the stream callback calls. *)
Record Image := {
  type : value;
  Image_frame_id : value
}.

(** [ImuData]; [accel] and [gyro] are arrays read at 0, 1 and 2. *)
Record ImuData := {
  flag : Z;
  ImuData_timestamp : value;
  temperature : value;
  accel : nat -> value;
  gyro : nat -> value
}.

(** What a thread running a callback does, one step at a time: it takes
    the mutex, gives it back, or sends one operand to [std::cout]. *)
Inductive action :=
| Lock
| Unlock
| Put (p : printable).

(** [std::lock_guard<std::mutex> _(mutex);] as the first statement of a
    body: the mutex is taken there and given back when the body is
    left. *)
Definition lock_guard (body : list action) : list action :=
  Lock :: body ++ [Unlock].

(** Lines 72-78. *)
Definition img_info_callback (info : ImgInfo) : list action :=
  lock_guard
    [Put (PStr "  [img_info] fid: "); Put (PVal (frame_id info));
     Put (PStr ", stamp: "); Put (PVal (timestamp info));
     Put (PStr ", expos: "); Put (PVal (exposure_time info));
     Put PEndl; Put PFlush].

(** Lines 87-92; [data_img] is what [data.img] points to. *)
Definition stream_callback (data_img : Image) : list action :=
  lock_guard
    [Put (PStr "  ["); Put (PVal (type data_img));
     Put (PStr "] fid: "); Put (PVal (Image_frame_id data_img));
     Put PEndl; Put PFlush].

(** Lines 99-104. *)
Definition accel_line (imu : ImuData) : list action :=
  [Put (PStr "[accel] stamp: "); Put (PVal (ImuData_timestamp imu));
   Put (PStr ", x: "); Put (PVal (accel imu 0%nat));
   Put (PStr ", y: "); Put (PVal (accel imu 1%nat));
   Put (PStr ", z: "); Put (PVal (accel imu 2%nat));
   Put (PStr ", temp: "); Put (PVal (temperature imu));
   Put PEndl].

(** Lines 106-111. *)
Definition gyro_line (imu : ImuData) : list action :=
  [Put (PStr "[gyro] stamp: "); Put (PVal (ImuData_timestamp imu));
   Put (PStr ", x: "); Put (PVal (gyro imu 0%nat));
   Put (PStr ", y: "); Put (PVal (gyro imu 1%nat));
   Put (PStr ", z: "); Put (PVal (gyro imu 2%nat));
   Put (PStr ", temp: "); Put (PVal (temperature imu));
   Put PEndl].

(** Lines 96-114; [imu] is what [data.imu] points to. *)
Definition motion_callback (imu : ImuData) : list action :=
  lock_guard
    ((if flag imu =? MYNTEYE_IMU_ACCEL then accel_line imu
      else if flag imu =? MYNTEYE_IMU_GYRO then gyro_line imu
      else [])
     ++ [Put PFlush]).

(** What a run of actions sends to [std::cout]. *)
Fixpoint console_of (p : list action) : list printable :=
  match p with
  | [] => []
  | Put x :: p' => x :: console_of p'
  | _ :: p' => console_of p'
  end.

(** ** The callbacks on the SDK's threads *)

(** One call of a registered callback by the SDK. *)
Inductive invocation :=
| OnImgInfo (info : ImgInfo)
| OnStream (data_img : Image)
| OnMotion (imu : ImuData).

Definition body_of (c : invocation) : list action :=
  match c with
  | OnImgInfo info => img_info_callback info
  | OnStream data_img => stream_callback data_img
  | OnMotion imu => motion_callback imu
  end.

Definition output_of (c : invocation) : list printable :=
  console_of (body_of c).

(** The threads (what each has left to do), the thread that holds
    [mutex], and what [std::cout] has received. *)
Record machine := {
  threads : list (list action);
  holder : option nat;
  console : list printable
}.

(** The SDK calls each of [calls] on a thread of its own. *)
Definition start (calls : list invocation) : machine :=
  {| threads := body_of <$> calls; holder := None; console := [] |}.

(** Any thread may make its next step at any time; [Lock] waits for the
    mutex to be free. *)
Inductive step : machine -> machine -> Prop :=
| step_lock m i rest :
    threads m !! i = Some (Lock :: rest) ->
    holder m = None ->
    step m {| threads := <[i:=rest]> (threads m); holder := Some i;
              console := console m |}
| step_unlock m i rest :
    threads m !! i = Some (Unlock :: rest) ->
    holder m = Some i ->
    step m {| threads := <[i:=rest]> (threads m); holder := None;
              console := console m |}
| step_put m i p rest :
    threads m !! i = Some (Put p :: rest) ->
    step m {| threads := <[i:=rest]> (threads m); holder := holder m;
              console := console m ++ [p] |}.

(** Every thread has returned from its callback. *)
Definition finished (m : machine) : Prop :=
  Forall (fun t => t = []) (threads m).

(** The outputs of the calls numbered [order], one after the other. *)
Definition in_order (calls : list invocation) (order : list nat)
  : list printable :=
  order ≫= (fun i => from_option output_of [] (calls !! i)).

(** ** Notions the properties are stated with *)

(** The loop as [main] enters it. *)
Definition main_loop (env : Env) (fuel : nat) : run nat :=
  display_loop env (configure_request (selected_request env))
    (supports env IMAGE_LEFT_COLOR) (supports env IMAGE_RIGHT_COLOR)
    (supports env IMAGE_DEPTH) fuel 0.

(** The body of the loop as [main] runs it. *)
Definition main_body (env : Env) (k : nat) : run Z :=
  loop_body env (configure_request (selected_request env))
    (supports env IMAGE_LEFT_COLOR) (supports env IMAGE_RIGHT_COLOR)
    (supports env IMAGE_DEPTH) k.

(** Iteration [k] of [main]'s loop is the first whose key is ESC, 'q' or
    'Q', and every iteration up to it reads its key. *)
Definition quit_key_at (env : Env) (k : nat) : Prop :=
  forall j, (j <= k)%nat ->
    exists key, result (main_body env j) = Ret key /\
                (key = 27 \/ key = 113 \/ key = 81 <-> j = k).

(** What [main] does from line 119 to line 131 when the device is open. *)
Definition greeting : list event :=
  [Cout PEndl; ApiIsOpened; Cout (PStr "Open device success"); Cout PEndl;
   Cout PEndl; Cout (PStr "Press ESC/Q on Windows to terminate");
   Cout PEndl; ApiSupports IMAGE_LEFT_COLOR; ApiSupports IMAGE_RIGHT_COLOR;
   ApiSupports IMAGE_DEPTH].

(** What the loop may do when it was entered with the three flags
    [l], [r] and [d]: SDK, painter and OpenCV calls, an [imshow] only in
    the window of the stream the image comes from and only if that
    stream's flag is set; no console output, no window creation, no other
    call. *)
Definition loop_event (l r d : bool) (e : event) : Prop :=
  match e with
  | ApiWaitForStreams | CounterUpdate | ApiGetStreamData _ | ImageTo _ _
  | ImageToMat _ | DrawSize _ _ | DrawStreamData _ _ _
  | DrawInformation _ _ _ | WaitKey _ => True
  | Imshow w (ToMat i) =>
      match stream_of i with
      | IMAGE_LEFT_COLOR => w = "left color" /\ l = true
      | IMAGE_RIGHT_COLOR => w = "right color" /\ r = true
      | IMAGE_DEPTH => w = "depth" /\ d = true
      end
  | _ => False
  end.

(** The names of the windows a run creates, in the order of their
    creation. *)
Definition created_windows (t : list event) : list string :=
  omap (fun e => match e with NamedWindow w => Some w | _ => None end) t.

(** What holds of every state the threads can reach: the calls numbered
    [done] have returned, [cur] is what the holder of the mutex has
    written so far, and nobody else has started. *)
Definition reached (calls : list invocation) (m : machine)
    (done : list nat) (cur : list printable) : Prop :=
  NoDup done /\
  (forall i, (i ∈ done) -> (i < length calls)%nat) /\
  length (threads m) = length calls /\
  console m = in_order calls done ++ cur /\
  (holder m = None -> cur = []) /\
  (forall h, holder m = Some h ->
     (h ∉ done) /\
     exists c post, calls !! h = Some c /\ output_of c = cur ++ post /\
       threads m !! h = Some ((Put <$> post) ++ [Unlock])) /\
  (forall i c, calls !! i = Some c -> holder m <> Some i ->
     ((i ∈ done) /\ threads m !! i = Some []) \/
     ((i ∉ done) /\ threads m !! i = Some (body_of c))).

(** The threads after those numbered [order] have returned. *)
Definition retire (ths : list (list action)) (order : list nat)
  : list (list action) :=
  foldl (fun t i => <[i:=[]]> t) ths order.

(** The flag the loop holds for a stream. *)
Definition flag_of (l r d : bool) (s : Stream) : bool :=
  match s with
  | IMAGE_LEFT_COLOR => l
  | IMAGE_RIGHT_COLOR => r
  | IMAGE_DEPTH => d
  end.

(** An image the SDK has really given: a frame that was there, or the
    result of a conversion that gave an image. *)
Fixpoint given (env : Env) (i : ImagePtr) : Prop :=
  match i with
  | Frame s k => frame_ready env k s = true
  | To j f => given env j /\ converts env j f = true
  end.

(** The image iteration [k] draws on and shows for the stream of [i]:
    the frame of that iteration, converted to BGR for the color streams
    and, with the colorful depth mode, for the depth stream. *)
Definition image_of_iteration (request : StreamRequest) (k : nat)
    (i : ImagePtr) : Prop :=
  match stream_of i with
  | IMAGE_DEPTH =>
      if decide (depth_mode request = DEPTH_COLORFUL)
      then i = To (Frame IMAGE_DEPTH k) DEPTH_BGR
      else i = Frame IMAGE_DEPTH k
  | s => i = To (Frame s k) COLOR_BGR
  end.

(** What iteration [k] of the loop may do, call by call. *)
Definition iteration_event (env : Env) (request : StreamRequest)
    (l r d : bool) (k : nat) (e : event) : Prop :=
  match e with
  | ApiWaitForStreams | CounterUpdate => True
  | WaitKey delay => delay = 1
  | ApiGetStreamData s => flag_of l r d s = true
  | ImageTo i f =>
      exists s, i = Frame s k /\ flag_of l r d s = true /\
        frame_ready env k s = true /\
        match s with
        | IMAGE_DEPTH => f = DEPTH_BGR /\ depth_mode request = DEPTH_COLORFUL
        | _ => f = COLOR_BGR
        end
  | ImageToMat i => image_of_iteration request k i /\ given env i
  | DrawSize (ToMat i) g =>
      image_of_iteration request k i /\ given env i /\ g = TOP_LEFT
  | DrawStreamData (ToMat i) data g =>
      image_of_iteration request k i /\ given env i /\
      data = {| img := Some (Frame (stream_of i) k) |} /\ g = TOP_RIGHT
  | DrawInformation (ToMat i) c g =>
      i = To (Frame IMAGE_LEFT_COLOR k) COLOR_BGR /\ given env i /\
      c = {| updates := S k |} /\ g = BOTTOM_RIGHT
  | Imshow w (ToMat i) => image_of_iteration request k i /\ given env i
  | _ => False
  end.

(** How many events of a run a test accepts. *)
Fixpoint count_if (f : event -> bool) (t : list event) : nat :=
  match t with
  | [] => 0%nat
  | e :: t' => ((if f e then 1 else 0) + count_if f t')%nat
  end.

Definition is_WaitForStreams (e : event) : bool :=
  match e with ApiWaitForStreams => true | _ => false end.

Definition is_CounterUpdate (e : event) : bool :=
  match e with CounterUpdate => true | _ => false end.

Definition is_WaitKey (e : event) : bool :=
  match e with WaitKey _ => true | _ => false end.

Definition is_GetStreamData (s : Stream) (e : event) : bool :=
  match e with ApiGetStreamData s' => bool_decide (s' = s) | _ => false end.

(** What a render step for stream [s0] with flag [flag] adds to the
    counts: it neither waits nor polls nor updates the counter, and if it
    ends normally it has fetched once from [s0] if the flag is set, and
    from no other stream. *)
Definition render_counts (s0 : Stream) (flag : bool) (m : run unit) : Prop :=
  count_if is_WaitForStreams (trace m) = 0%nat /\
  count_if is_CounterUpdate (trace m) = 0%nat /\
  count_if is_WaitKey (trace m) = 0%nat /\
  (result m = Ret tt ->
   forall s, count_if (is_GetStreamData s) (trace m) =
             if flag && bool_decide (s0 = s) then 1%nat else 0%nat).

(** What a run sends to [std::cout] and [std::cerr], in order. *)
Definition printed (t : list event) : list event :=
  List.filter (fun e => match e with Cout _ | Cerr _ => true | _ => false end) t.

(** * Properties *)

(** Membership in a list that is written out. *)
Ltac elem_inv :=
  repeat match goal with
  | H : _ ∈ _ ++ _ |- _ => apply elem_of_app in H as [H|H]
  | H : _ ∈ _ :: _ |- _ => apply elem_of_cons in H as [H|H]
  | H : _ ∈ [] |- _ => apply elem_of_nil in H; destruct H
  end.

(** ** The monad *)

Lemma trace_bind {A B} (m : run A) (f : A -> run B) :
  trace (m ≫= f) =
  trace m ++ match result m with Ret a => trace (f a) | _ => [] end.
Proof.
  destruct m as [t [a| |]]; cbn; rewrite ?app_nil_r; try reflexivity.
  destruct (f a); reflexivity.
Qed.

Lemma result_bind {A B} (m : run A) (f : A -> run B) :
  result (m ≫= f) =
  match result m with
  | Ret a => result (f a)
  | NullDeref => NullDeref
  | Unfinished => Unfinished
  end.
Proof.
  destruct m as [t [a| |]]; cbn; try reflexivity.
  destruct (f a); reflexivity.
Qed.

(** ** The shape of [main]'s run *)

Lemma main_not_opened env fuel :
  is_opened env = false ->
  main env fuel =
  (trace (setup env) ++
   [Cout PEndl; ApiIsOpened; Cerr (PStr "Error: Open camera failed");
    Cerr PEndl], Ret 1).
Proof. intros H. unfold main. rewrite H. reflexivity. Qed.

Lemma main_opened env fuel :
  is_opened env = true ->
  main env fuel =
  (trace (setup env) ++ greeting ++
   trace (create_windows (supports env IMAGE_LEFT_COLOR)
            (supports env IMAGE_RIGHT_COLOR) (supports env IMAGE_DEPTH)) ++
   trace (main_loop env fuel) ++
   match result (main_loop env fuel) with Ret _ => [ApiClose] | _ => [] end,
   match result (main_loop env fuel) with
   | Ret _ => Ret 0
   | NullDeref => NullDeref
   | Unfinished => Unfinished
   end).
Proof.
  intros H. unfold main, main_loop. rewrite H.
  destruct (display_loop _ _ _ _ _ _ _) as [t o] eqn:E.
  cbn -[display_loop]. rewrite E.
  destruct (supports env IMAGE_LEFT_COLOR), (supports env IMAGE_RIGHT_COLOR),
    (supports env IMAGE_DEPTH), o; cbn; rewrite ?app_nil_r; reflexivity.
Qed.

(** ** The events of the loop *)

Lemma Forall_trace_bind {A B} (P : event -> Prop) (m : run A) (f : A -> run B) :
  Forall P (trace m) -> (forall a, Forall P (trace (f a))) ->
  Forall P (trace (m ≫= f)).
Proof.
  intros Hm Hf. rewrite trace_bind. apply Forall_app. split; [exact Hm|].
  destruct (result m); [apply Hf | constructor | constructor].
Qed.

Section LoopFacts.

Variable env : Env.
Variable request : StreamRequest.
Variable l r d : bool.

Lemma render_left_events k c :
  Forall (loop_event l r d) (trace (render_left env l k c)).
Proof.
  unfold render_left. destruct l; [|constructor]. cbn.
  destruct (frame_ready env k IMAGE_LEFT_COLOR); cbn;
    [|repeat constructor].
  destruct (converts env _ _); cbn; repeat constructor.
Qed.

Lemma render_right_events k :
  Forall (loop_event l r d) (trace (render_right env r k)).
Proof.
  unfold render_right. destruct r; [|constructor]. cbn.
  destruct (frame_ready env k IMAGE_RIGHT_COLOR); cbn;
    [|repeat constructor].
  destruct (converts env _ _); cbn; repeat constructor.
Qed.

Lemma render_depth_events k :
  Forall (loop_event l r d) (trace (render_depth env request d k)).
Proof.
  unfold render_depth. destruct d; [|constructor]. cbn.
  destruct (frame_ready env k IMAGE_DEPTH); cbn; [|repeat constructor].
  destruct (decide _); cbn; [|repeat constructor].
  destruct (converts env _ _); cbn; repeat constructor.
Qed.

Lemma loop_body_events k :
  Forall (loop_event l r d) (trace (loop_body env request l r d k)).
Proof.
  unfold loop_body.
  repeat (apply Forall_trace_bind; [|intros ?]);
    auto using render_left_events, render_right_events, render_depth_events;
    repeat constructor.
Qed.

Lemma display_loop_events fuel k :
  Forall (loop_event l r d) (trace (display_loop env request l r d fuel k)).
Proof.
  revert k. induction fuel as [|fuel IH]; intros k; cbn [display_loop].
  - constructor.
  - apply Forall_trace_bind; [apply loop_body_events|].
    intros key. destruct (is_quit_key key); [constructor | apply IH].
Qed.

End LoopFacts.

(** ** How the loop is left *)

Lemma is_quit_key_spec key :
  is_quit_key key = true <-> key = 27 \/ key = 113 \/ key = 81.
Proof.
  unfold is_quit_key. change (code_of "q") with 113.
  change (code_of "Q") with 81.
  rewrite !orb_true_iff, !Z.eqb_eq. tauto.
Qed.

(** The cast keeps what the three comparisons need: the low 8 bits. *)
Lemma is_quit_key_to_char z :
  is_quit_key (to_char z) = true <->
  z mod 256 = 27 \/ z mod 256 = 113 \/ z mod 256 = 81.
Proof.
  rewrite is_quit_key_spec. unfold to_char.
  pose proof (Z.mod_pos_bound z 256 ltac:(lia)).
  destruct (z mod 256 <? 128) eqn:E; [tauto|].
  apply Z.ltb_ge in E. lia.
Qed.

Section LoopResult.

Variable env : Env.
Variable request : StreamRequest.
Variable l r d : bool.

Lemma render_left_result k c :
  result (render_left env l k c) = Ret tt \/
  result (render_left env l k c) = NullDeref.
Proof.
  unfold render_left. destruct l; [|by left]. cbn.
  destruct (frame_ready env k IMAGE_LEFT_COLOR); cbn; [|by left].
  destruct (converts env _ _); cbn; [by left | by right].
Qed.

Lemma render_right_result k :
  result (render_right env r k) = Ret tt \/
  result (render_right env r k) = NullDeref.
Proof.
  unfold render_right. destruct r; [|by left]. cbn.
  destruct (frame_ready env k IMAGE_RIGHT_COLOR); cbn; [|by left].
  destruct (converts env _ _); cbn; [by left | by right].
Qed.

Lemma render_depth_result k :
  result (render_depth env request d k) = Ret tt \/
  result (render_depth env request d k) = NullDeref.
Proof.
  unfold render_depth. destruct d; [|by left]. cbn.
  destruct (frame_ready env k IMAGE_DEPTH); cbn; [|by left].
  destruct (decide _); cbn; [|by left].
  destruct (converts env _ _); cbn; [by left | by right].
Qed.

(** An iteration reads its key unless a render step fails in it. *)
Lemma loop_body_result k :
  result (loop_body env request l r d k) = Ret (to_char (wait_key env k)) \/
  result (loop_body env request l r d k) = NullDeref.
Proof.
  unfold loop_body. rewrite !result_bind. cbn.
  destruct (render_left_result k (Update {| updates := k |})) as [-> | ->];
    [|by right].
  destruct (render_right_result k) as [-> | ->]; [|by right].
  destruct (render_depth_result k) as [-> | ->]; [by left | by right].
Qed.

Lemma display_loop_S fuel k :
  result (display_loop env request l r d (S fuel) k) =
  match result (loop_body env request l r d k) with
  | Ret key =>
      if is_quit_key key then Ret (S k)
      else result (display_loop env request l r d fuel (S k))
  | NullDeref => NullDeref
  | Unfinished => Unfinished
  end.
Proof.
  cbn [display_loop]. rewrite result_bind.
  destruct (result (loop_body env request l r d k)); try reflexivity.
  destruct (is_quit_key a); reflexivity.
Qed.

(** The loop is left after iteration [k] exactly when every iteration up
    to [k] reads its key and [k] is the first whose key is a quit key. *)
Lemma display_loop_leaves fuel k0 n :
  result (display_loop env request l r d fuel k0) = Ret n <->
  exists k, n = S k /\ (k0 <= k < k0 + fuel)%nat /\
    forall j, (k0 <= j <= k)%nat ->
      exists key, result (loop_body env request l r d j) = Ret key /\
                  (is_quit_key key = true <-> j = k).
Proof.
  revert k0. induction fuel as [|fuel IH]; intros k0.
  - cbn. split; [discriminate|]. intros (k & _ & ? & _). lia.
  - rewrite display_loop_S.
    destruct (result (loop_body env request l r d k0)) as [key| |] eqn:B.
    + destruct (is_quit_key key) eqn:Q.
      * split.
        -- intros [= <-]. exists k0. split; [reflexivity|].
           split; [lia|]. intros j Hj. assert (j = k0) as -> by lia.
           exists key. split; [exact B|]. tauto.
        -- intros (k & -> & Hk & Hall).
           destruct (Hall k0 ltac:(lia)) as (key' & B' & Hq).
           rewrite B in B'. injection B' as <-.
           apply Hq in Q. by subst.
      * rewrite IH. split.
        -- intros (k & -> & Hk & Hall). exists k. split; [reflexivity|].
           split; [lia|]. intros j Hj.
           destruct (decide (j = k0)) as [->|Hne].
           ++ exists key. split; [exact B|]. split; [congruence|lia].
           ++ apply Hall. lia.
        -- intros (k & -> & Hk & Hall). exists k. split; [reflexivity|].
           destruct (Hall k0 ltac:(lia)) as (key' & B' & Hq).
           rewrite B in B'. injection B' as <-.
           assert (k0 <> k) by (intros E; apply Hq in E; congruence).
           split; [lia|]. intros j Hj. apply Hall. lia.
    + split; [discriminate|]. intros (k & _ & Hk & Hall).
      destruct (Hall k0 ltac:(lia)) as (? & ? & _). congruence.
    + split; [discriminate|]. intros (k & _ & Hk & Hall).
      destruct (Hall k0 ltac:(lia)) as (? & ? & _). congruence.
Qed.

End LoopResult.

Lemma loop_creates_no_window l r d (t : list event) :
  Forall (loop_event l r d) t -> created_windows t = [].
Proof.
  induction 1 as [|e t He _ IH]; [reflexivity|].
  unfold created_windows in *. cbn. rewrite IH.
  destruct e; try reflexivity; destruct He.
Qed.

Lemma app_split_later {X} (a b before after : list X) (x : X) :
  a ++ b = before ++ x :: after -> x ∉ a ->
  exists mid, before = a ++ mid /\ b = mid ++ x :: after.
Proof.
  revert before. induction a as [|y a IH]; intros before E Hx.
  - exists before. split; [reflexivity | exact E].
  - destruct before as [|z before]; cbn in E; inversion E; subst.
    + exfalso. apply Hx. constructor.
    + destruct (IH before) as (mid & -> & ->); [assumption|set_solver|].
      exists mid. split; reflexivity.
Qed.

(** ** The stream request *)

(** C8: the request the program builds has framerate 30 and stream mode
    STREAM_2560x720, whatever request it started from; 30 lies in the
    range [0,30] documented for that mode and in the general range
    [0,60]; and this request is the one, and the only one, passed to
    ConfigStreamRequest. *)
Theorem request_framerate_in_legal_range (env : Env) (fuel : nat) :
  let request := configure_request (selected_request env) in
  framerate request = 30 /\
  stream_mode request = STREAM_2560x720 /\
  framerate_range (stream_mode request) = (0, 30) /\
  0 <= framerate request <= 30 /\
  0 <= framerate request <= 60 /\
  framerate_legal request = true /\
  (forall m, snd (framerate_range m) <= 60 /\ fst (framerate_range m) = 0) /\
  ApiConfigStreamRequest request ∈ trace (main env fuel) /\
  (forall r, ApiConfigStreamRequest r ∈ trace (main env fuel) -> r = request).
Proof.
  intros request. subst request.
  do 3 (split; [reflexivity|]). do 2 (split; [cbn; lia|]).
  split; [reflexivity|]. split; [intros []; cbn; lia|]. split.
  - destruct (is_opened env) eqn:E;
      [rewrite main_opened by exact E | rewrite main_not_opened by exact E];
      cbn; set_solver.
  - intros r0 H. destruct (is_opened env) eqn:E;
      [rewrite main_opened in H by exact E
      |rewrite main_not_opened in H by exact E]; cbn [trace fst] in H.
    + elem_inv; try discriminate.
      * cbn in H. elem_inv; try discriminate. congruence.
      * unfold greeting in H. elem_inv; discriminate.
      * destruct (supports env IMAGE_LEFT_COLOR),
          (supports env IMAGE_RIGHT_COLOR), (supports env IMAGE_DEPTH);
          cbn in H; elem_inv; discriminate.
      * unfold main_loop in H.
        eapply Forall_forall in H; [|apply display_loop_events].
        destruct H.
      * destruct (result (main_loop env fuel)); elem_inv; discriminate.
    + cbn in H. elem_inv; try discriminate. congruence.
Qed.

(** ** The device-open check *)

(** C2: when IsOpened returns false, main returns 1, the last thing it
    does is to send the error message and a line end to standard error,
    and its run creates no window. *)
Theorem open_failure_exits_1_before_windows (env : Env) (fuel : nat) :
  is_opened env = false ->
  result (main env fuel) = Ret 1 /\
  (exists before,
     trace (main env fuel) =
     before ++ [ApiIsOpened; Cerr (PStr "Error: Open camera failed");
                Cerr PEndl]) /\
  (forall w, NamedWindow w ∉ trace (main env fuel)) /\
  created_windows (trace (main env fuel)) = [].
Proof.
  intros H. rewrite main_not_opened by exact H. split; [reflexivity|].
  split; [|split].
  - exists (trace (setup env) ++ [Cout PEndl]).
    cbn [trace fst]. rewrite <- app_assoc. reflexivity.
  - intros w Hw. cbn in Hw. elem_inv; discriminate.
  - reflexivity.
Qed.

(** ** The windows *)

(** C7: when the device is open, the windows the run creates are
    "left color", "right color" and "depth", each exactly when Supports
    answers true for its stream; and every imshow of the run shows an
    image of a supported stream in the window of that stream's name, which
    was created before. *)
Theorem windows_created_iff_supported (env : Env) (fuel : nat) :
  is_opened env = true ->
  created_windows (trace (main env fuel)) =
    (if supports env IMAGE_LEFT_COLOR then ["left color"] else []) ++
    (if supports env IMAGE_RIGHT_COLOR then ["right color"] else []) ++
    (if supports env IMAGE_DEPTH then ["depth"] else []) /\
  (forall before w i after,
     trace (main env fuel) = before ++ Imshow w (ToMat i) :: after ->
     supports env (stream_of i) = true /\
     w = match stream_of i with
         | IMAGE_LEFT_COLOR => "left color"
         | IMAGE_RIGHT_COLOR => "right color"
         | IMAGE_DEPTH => "depth"
         end /\
     NamedWindow w ∈ before).
Proof.
  intros H. rewrite main_opened by exact H. cbn [trace fst].
  pose proof (display_loop_events env
    (configure_request (selected_request env))
    (supports env IMAGE_LEFT_COLOR) (supports env IMAGE_RIGHT_COLOR)
    (supports env IMAGE_DEPTH) fuel 0%nat) as F.
  fold (main_loop env fuel) in F. split.
  - unfold created_windows. rewrite !omap_app.
    fold (created_windows (trace (main_loop env fuel))).
    rewrite (loop_creates_no_window _ _ _ _ F).
    destruct (supports env IMAGE_LEFT_COLOR),
      (supports env IMAGE_RIGHT_COLOR), (supports env IMAGE_DEPTH),
      (result (main_loop env fuel)); reflexivity.
  - intros before w i after E. rewrite !app_assoc in E.
    rewrite <- app_assoc in E.
    apply app_split_later in E as (mid & -> & E).
    + assert (Hin : Imshow w (ToMat i) ∈ trace (main_loop env fuel)).
      { assert (Hin : Imshow w (ToMat i) ∈ mid ++ Imshow w (ToMat i) :: after)
          by set_solver.
        rewrite <- E in Hin. apply elem_of_app in Hin as [Hin|Hin]; [done|].
        destruct (result (main_loop env fuel)); elem_inv; discriminate. }
      rewrite Forall_forall in F. specialize (F _ Hin). cbn in F.
      destruct (stream_of i); destruct F as [-> Hs]; rewrite Hs;
        (split; [reflexivity|]); (split; [reflexivity|]);
        apply elem_of_app; left; apply elem_of_app; right;
        destruct (supports env IMAGE_LEFT_COLOR),
          (supports env IMAGE_RIGHT_COLOR), (supports env IMAGE_DEPTH);
        try discriminate; cbn; set_solver.
    + intros Hin. unfold greeting in Hin. cbn in Hin.
      destruct (supports env IMAGE_LEFT_COLOR),
        (supports env IMAGE_RIGHT_COLOR), (supports env IMAGE_DEPTH);
        cbn in Hin; elem_inv; discriminate.
Qed.

(** ** The quit keys *)

(** C4: an iteration that reads a quit key (27, 'q' = 113, 'Q' = 81) is
    the last one, an iteration that reads another key is followed by the
    next one; so the loop is left after iteration [k] exactly when every
    iteration up to [k] reads its key and [k] is the only one of them
    whose key is a quit key. *)
Theorem loop_left_iff_quit_key (env : Env) (request : StreamRequest)
    (l r d : bool) :
  (forall fuel k t key,
     loop_body env request l r d k = (t, Ret key) ->
     key = to_char (wait_key env k) /\
     (key = 27 \/ key = 113 \/ key = 81 ->
      display_loop env request l r d (S fuel) k = (t, Ret (S k))) /\
     (~ (key = 27 \/ key = 113 \/ key = 81) ->
      display_loop env request l r d (S fuel) k =
      (t ++ trace (display_loop env request l r d fuel (S k)),
       result (display_loop env request l r d fuel (S k))))) /\
  (forall fuel n,
     result (display_loop env request l r d fuel 0) = Ret n <->
     exists k, n = S k /\ (k < fuel)%nat /\
       forall j, (j <= k)%nat ->
         exists key, result (loop_body env request l r d j) = Ret key /\
                     (key = 27 \/ key = 113 \/ key = 81 <-> j = k)).
Proof.
  split.
  - intros fuel k t key B. split; [|split].
    + destruct (loop_body_result env request l r d k) as [E|E];
        rewrite B in E; cbn in E; congruence.
    + intros Q. apply is_quit_key_spec in Q. cbn [display_loop].
      rewrite B. cbn. rewrite Q. cbn. by rewrite app_nil_r.
    + intros Q. rewrite <- is_quit_key_spec in Q.
      apply not_true_is_false in Q. cbn [display_loop].
      rewrite B. cbn. rewrite Q.
      by destruct (display_loop env request l r d fuel (S k)).
  - intros fuel n. rewrite display_loop_leaves. split.
    + intros (k & -> & Hk & Hall). exists k. split; [reflexivity|].
      split; [lia|]. intros j Hj.
      destruct (Hall j ltac:(lia)) as (key & B & Q). exists key.
      by rewrite <- is_quit_key_spec.
    + intros (k & -> & Hk & Hall). exists k. split; [reflexivity|].
      split; [lia|]. intros j Hj.
      destruct (Hall j ltac:(lia)) as (key & B & Q). exists key.
      by rewrite is_quit_key_spec.
Qed.

(** ** The value [main] returns *)

Lemma main_loop_leaves env fuel :
  (exists n, result (main_loop env fuel) = Ret n) <->
  exists k, (k < fuel)%nat /\ quit_key_at env k.
Proof.
  unfold main_loop, quit_key_at, main_body. split.
  - intros (n & Hn). apply display_loop_leaves in Hn as (k & -> & Hk & Hall).
    exists k. split; [lia|]. intros j Hj.
    destruct (Hall j ltac:(lia)) as (key & B & Q). exists key.
    by rewrite <- is_quit_key_spec.
  - intros (k & Hk & Hall). exists (S k). apply display_loop_leaves.
    exists k. split; [reflexivity|]. split; [lia|]. intros j Hj.
    destruct (Hall j ltac:(lia)) as (key & B & Q). exists key.
    by rewrite is_quit_key_spec.
Qed.

(** C3: main returns 1 when the device is not open; it returns 0 when
    the device is open and the loop is left on a quit key (within the
    iterations that are followed); and it returns no other value: a run
    that returns, returns 1 with the device not open or 0 after a quit
    key. *)
Theorem main_returns_0_or_1 (env : Env) (fuel : nat) :
  (is_opened env = false -> result (main env fuel) = Ret 1) /\
  (forall k, is_opened env = true -> (k < fuel)%nat -> quit_key_at env k ->
     result (main env fuel) = Ret 0) /\
  (forall code, result (main env fuel) = Ret code ->
     (code = 1 /\ is_opened env = false) \/
     (code = 0 /\ is_opened env = true /\
      exists k, (k < fuel)%nat /\ quit_key_at env k)).
Proof.
  split; [|split].
  - intros H. by rewrite main_not_opened.
  - intros k H Hk Q. rewrite main_opened by exact H. cbn [result snd].
    destruct (proj2 (main_loop_leaves env fuel)) as (n & ->); eauto.
  - intros code. destruct (is_opened env) eqn:H.
    + rewrite main_opened by exact H. cbn [result snd].
      destruct (result (main_loop env fuel)) as [n| |] eqn:E; try discriminate.
      intros [= <-]. right. split; [reflexivity|]. split; [reflexivity|].
      apply main_loop_leaves. eauto.
    + rewrite main_not_opened by exact H. intros [= <-]. by left.
Qed.

(** ** The depth image *)

(** C6: in an iteration with a depth frame, the depth step calls To
    exactly when the request's depth mode is DEPTH_COLORFUL, and then
    with DEPTH_BGR on the frame, showing the converted image; with
    another depth mode it shows the frame itself. *)
Theorem depth_converted_iff_colorful (env : Env) (request : StreamRequest)
    (k : nat) :
  frame_ready env k IMAGE_DEPTH = true ->
  let frame := Frame IMAGE_DEPTH k in
  let image_depth := {| img := Some frame |} in
  let step := render_depth env request true k in
  ((exists i f, ImageTo i f ∈ trace step) <->
   depth_mode request = DEPTH_COLORFUL) /\
  (depth_mode request = DEPTH_COLORFUL ->
   (exists after,
      trace step =
      [ApiGetStreamData IMAGE_DEPTH; ImageTo frame DEPTH_BGR] ++ after) /\
   (converts env frame DEPTH_BGR = true ->
    step =
    ([ApiGetStreamData IMAGE_DEPTH; ImageTo frame DEPTH_BGR;
      ImageToMat (To frame DEPTH_BGR);
      DrawSize (ToMat (To frame DEPTH_BGR)) TOP_LEFT;
      DrawStreamData (ToMat (To frame DEPTH_BGR)) image_depth TOP_RIGHT;
      Imshow "depth" (ToMat (To frame DEPTH_BGR))], Ret tt))) /\
  (depth_mode request <> DEPTH_COLORFUL ->
   step =
   ([ApiGetStreamData IMAGE_DEPTH; ImageToMat frame;
     DrawSize (ToMat frame) TOP_LEFT;
     DrawStreamData (ToMat frame) image_depth TOP_RIGHT;
     Imshow "depth" (ToMat frame)], Ret tt)).
Proof.
  intros F frame image_depth step. subst frame image_depth step.
  unfold render_depth. cbn. rewrite F. cbn.
  destruct (decide (depth_mode request = DEPTH_COLORFUL)) as [E|E]; cbn.
  - split; [|split; [|done]].
    + split; [done|]. intros _. exists (Frame IMAGE_DEPTH k), DEPTH_BGR.
      destruct (converts env _ DEPTH_BGR); cbn;
        apply list_elem_of_further, list_elem_of_here.
    + intros _. split.
      * destruct (converts env _ DEPTH_BGR); cbn; eauto.
      * intros ->. reflexivity.
  - split; [|split; [done|]].
    + split; [|done]. intros (i & f & H). elem_inv; discriminate.
    + intros _. reflexivity.
Qed.

(** ** Streams that are not available *)

(** C1, amended: a stream whose flag is not set is not touched, and a
    stream without a frame is fetched once and then left alone; in both
    cases the step ends normally and the iteration goes on.  An iteration
    in which no stream is available does nothing but wait, update the
    counter, fetch once from every supported stream and read the key.
    The result of a conversion is used as it comes: with a frame there,
    the step ends normally exactly when the conversion it makes gives an
    image. *)
Theorem unavailable_stream_is_skipped (env : Env) (request : StreamRequest)
    (k : nat) (counter : Counter) :
  (render_left env false k counter = ([], Ret tt) /\
   render_right env false k = ([], Ret tt) /\
   render_depth env request false k = ([], Ret tt)) /\
  (frame_ready env k IMAGE_LEFT_COLOR = false ->
   render_left env true k counter =
   ([ApiGetStreamData IMAGE_LEFT_COLOR], Ret tt)) /\
  (frame_ready env k IMAGE_RIGHT_COLOR = false ->
   render_right env true k = ([ApiGetStreamData IMAGE_RIGHT_COLOR], Ret tt)) /\
  (frame_ready env k IMAGE_DEPTH = false ->
   render_depth env request true k =
   ([ApiGetStreamData IMAGE_DEPTH], Ret tt)) /\
  (forall l r d,
     l && frame_ready env k IMAGE_LEFT_COLOR = false ->
     r && frame_ready env k IMAGE_RIGHT_COLOR = false ->
     d && frame_ready env k IMAGE_DEPTH = false ->
     loop_body env request l r d k =
     ([ApiWaitForStreams; CounterUpdate] ++
      (if l then [ApiGetStreamData IMAGE_LEFT_COLOR] else []) ++
      (if r then [ApiGetStreamData IMAGE_RIGHT_COLOR] else []) ++
      (if d then [ApiGetStreamData IMAGE_DEPTH] else []) ++
      [WaitKey 1], Ret (to_char (wait_key env k)))) /\
  (frame_ready env k IMAGE_LEFT_COLOR = true ->
   (result (render_left env true k counter) = Ret tt <->
    converts env (Frame IMAGE_LEFT_COLOR k) COLOR_BGR = true)) /\
  (frame_ready env k IMAGE_RIGHT_COLOR = true ->
   (result (render_right env true k) = Ret tt <->
    converts env (Frame IMAGE_RIGHT_COLOR k) COLOR_BGR = true)) /\
  (frame_ready env k IMAGE_DEPTH = true ->
   depth_mode request = DEPTH_COLORFUL ->
   (result (render_depth env request true k) = Ret tt <->
    converts env (Frame IMAGE_DEPTH k) DEPTH_BGR = true)).
Proof.
  split; [by repeat split|].
  split; [intros H; unfold render_left; cbn; by rewrite H|].
  split; [intros H; unfold render_right; cbn; by rewrite H|].
  split; [intros H; unfold render_depth; cbn; by rewrite H|].
  split.
  { intros l r d Hl Hr Hd.
    unfold loop_body, render_left, render_right, render_depth.
    destruct l, r, d; cbn in Hl, Hr, Hd; cbn; rewrite ?Hl, ?Hr, ?Hd;
      reflexivity. }
  split; [|split].
  - intros H. unfold render_left. cbn. rewrite H. cbn.
    destruct (converts env _ _); cbn; split; congruence.
  - intros H. unfold render_right. cbn. rewrite H. cbn.
    destruct (converts env _ _); cbn; split; congruence.
  - intros H E. unfold render_depth. cbn. rewrite H. cbn.
    destruct (decide _); [|done]. cbn.
    destruct (converts env _ _); cbn; split; congruence.
Qed.

(** ** The motion callback *)

(** C5: a sample tagged with the accelerometer flag is printed in the
    accel format: the mutex, "[accel] stamp: " and the time stamp, the
    three accel axes 0, 1 and 2 after ", x: ", ", y: " and ", z: ",
    ", temp: " and the temperature, the line end, the flush, the release.
    If the two flags differ, a sample tagged with the gyroscope flag is
    printed in the gyro format: the same with "[gyro] stamp: " and the
    three gyro axes.  The accel header is printed exactly for the
    accelerometer flag and the gyro header exactly for a gyroscope flag
    that is not the accelerometer flag, so no sample is printed in both
    formats. *)
Theorem motion_branches_exclusive (imu : ImuData) :
  (flag imu = MYNTEYE_IMU_ACCEL ->
   motion_callback imu =
   [Lock;
    Put (PStr "[accel] stamp: "); Put (PVal (ImuData_timestamp imu));
    Put (PStr ", x: "); Put (PVal (accel imu 0%nat));
    Put (PStr ", y: "); Put (PVal (accel imu 1%nat));
    Put (PStr ", z: "); Put (PVal (accel imu 2%nat));
    Put (PStr ", temp: "); Put (PVal (temperature imu));
    Put PEndl; Put PFlush; Unlock]) /\
  (MYNTEYE_IMU_ACCEL <> MYNTEYE_IMU_GYRO ->
   flag imu = MYNTEYE_IMU_GYRO ->
   motion_callback imu =
   [Lock;
    Put (PStr "[gyro] stamp: "); Put (PVal (ImuData_timestamp imu));
    Put (PStr ", x: "); Put (PVal (gyro imu 0%nat));
    Put (PStr ", y: "); Put (PVal (gyro imu 1%nat));
    Put (PStr ", z: "); Put (PVal (gyro imu 2%nat));
    Put (PStr ", temp: "); Put (PVal (temperature imu));
    Put PEndl; Put PFlush; Unlock]) /\
  (Put (PStr "[accel] stamp: ") ∈ motion_callback imu <->
   flag imu = MYNTEYE_IMU_ACCEL) /\
  (Put (PStr "[gyro] stamp: ") ∈ motion_callback imu <->
   flag imu = MYNTEYE_IMU_GYRO /\ flag imu <> MYNTEYE_IMU_ACCEL) /\
  ~ (Put (PStr "[accel] stamp: ") ∈ motion_callback imu /\
     Put (PStr "[gyro] stamp: ") ∈ motion_callback imu).
Proof.
  unfold motion_callback.
  destruct (flag imu =? MYNTEYE_IMU_ACCEL) eqn:A;
    [apply Z.eqb_eq in A
    |apply Z.eqb_neq in A;
     destruct (flag imu =? MYNTEYE_IMU_GYRO) eqn:G;
     [apply Z.eqb_eq in G | apply Z.eqb_neq in G]];
    unfold lock_guard, accel_line, gyro_line; cbn.
  - split; [reflexivity|]. split; [intros Hne Hg; congruence|].
    split; [split; [done|]; intros _;
            apply list_elem_of_further, list_elem_of_here|].
    split; [split; [intros H; elem_inv; discriminate | intros [_ H]; done]|].
    intros [_ H]. elem_inv; discriminate.
  - split; [done|]. split; [reflexivity|].
    split; [split; [intros H; elem_inv; discriminate | done]|].
    split; [split; [done|]; intros _;
            apply list_elem_of_further, list_elem_of_here|].
    intros [H _]. elem_inv; discriminate.
  - split; [done|]. split; [done|].
    split; [split; [intros H; elem_inv; discriminate | done]|].
    split; [split; [intros H; elem_inv; discriminate | intros [H _]; done]|].
    intros [H _]. elem_inv; discriminate.
Qed.

(** C10: a sample whose tag is neither flag makes the callback take the
    mutex, flush the stream and release the mutex: nothing is printed. *)
Theorem other_flag_prints_nothing (imu : ImuData) :
  flag imu <> MYNTEYE_IMU_ACCEL ->
  flag imu <> MYNTEYE_IMU_GYRO ->
  motion_callback imu = [Lock; Put PFlush; Unlock] /\
  console_of (motion_callback imu) = [PFlush].
Proof.
  intros Ha Hg. apply Z.eqb_neq in Ha, Hg. unfold motion_callback.
  rewrite Ha, Hg. split; reflexivity.
Qed.

(** ** The mutex *)

(** A callback is one guarded region that holds all its writes. *)
Lemma body_guarded (c : invocation) :
  body_of c = lock_guard (Put <$> output_of c).
Proof.
  destruct c as [info|data_img|imu]; try reflexivity.
  unfold output_of. cbn. unfold motion_callback.
  destruct (flag imu =? MYNTEYE_IMU_ACCEL);
    [|destruct (flag imu =? MYNTEYE_IMU_GYRO)]; reflexivity.
Qed.

Lemma in_order_snoc calls order i c :
  calls !! i = Some c ->
  in_order calls (order ++ [i]) = in_order calls order ++ output_of c.
Proof.
  intros H. unfold in_order. rewrite bind_app. cbn. rewrite H. cbn.
  by rewrite app_nil_r.
Qed.

Lemma reached_start calls : reached calls (start calls) [] [].
Proof.
  unfold reached, start. cbn. split; [constructor|].
  split; [intros i Hi; by apply elem_of_nil in Hi|].
  split; [apply length_fmap|]. split; [reflexivity|].
  split; [reflexivity|]. split; [discriminate|].
  intros i c Hc _. right. split; [apply not_elem_of_nil|].
  by rewrite list_lookup_fmap, Hc.
Qed.

Lemma reached_step calls m m' done cur :
  reached calls m done cur -> step m m' ->
  exists done' cur', reached calls m' done' cur'.
Proof.
  intros (Hnd & Hlt & Hlen & Hcon & Hnone & Hhold & Hrest) Hstep.
  destruct Hstep as [m i rest Hi Hfree | m i rest Hi Hh | m i p rest Hi].
  - (* Lock *)
    assert (Hil : (i < length calls)%nat)
      by (rewrite <- Hlen; by eapply lookup_lt_Some).
    destruct (lookup_lt_is_Some_2 calls i Hil) as [c Hc].
    destruct (Hrest i c Hc) as [[_ Ht]|[Hnot Ht]];
      [congruence | congruence |].
    rewrite Hi, body_guarded in Ht. injection Ht as ->.
    exists done, []. unfold reached. cbn.
    split; [exact Hnd|]. split; [exact Hlt|].
    split; [by rewrite length_insert|].
    split; [by rewrite Hcon, (Hnone Hfree)|]. split; [reflexivity|]. split.
    + intros h [= <-]. split; [exact Hnot|]. exists c, (output_of c).
      split; [exact Hc|]. split; [reflexivity|].
      apply list_lookup_insert_eq. by rewrite Hlen.
    + intros j c' Hc' Hj. assert (i <> j) by congruence.
      rewrite list_lookup_insert_ne by assumption.
      apply Hrest; [exact Hc' | congruence].
  - (* Unlock *)
    destruct (Hhold i Hh) as (Hnot & c & post & Hc & Hout & Ht).
    rewrite Hi in Ht. destruct post as [|q post]; [|discriminate].
    cbn in Ht. injection Ht as ->. rewrite app_nil_r in Hout.
    exists (done ++ [i]), []. unfold reached. cbn.
    split.
    { apply NoDup_app. split; [exact Hnd|]. split; [|apply NoDup_singleton].
      intros x Hx Hx'. apply list_elem_of_singleton in Hx'. by subst. }
    split.
    { intros x Hx. apply elem_of_app in Hx as [Hx|Hx]; [by apply Hlt|].
      apply list_elem_of_singleton in Hx as ->. by eapply lookup_lt_Some. }
    split; [by rewrite length_insert|].
    split; [by rewrite (in_order_snoc _ _ _ _ Hc), app_nil_r, Hcon, Hout|].
    split; [reflexivity|]. split; [discriminate|].
    intros j c' Hc' _. destruct (decide (j = i)) as [->|Hne].
    + left. split; [apply elem_of_app; right; constructor|].
      apply list_lookup_insert_eq. rewrite Hlen. by eapply lookup_lt_Some.
    + rewrite list_lookup_insert_ne by congruence.
      destruct (Hrest j c' Hc') as [[Hin Ht]|[Hin Ht]]; [congruence| |].
      * left. split; [apply elem_of_app; by left | exact Ht].
      * right. split; [|exact Ht]. rewrite not_elem_of_app. split; [done|].
        by rewrite list_elem_of_singleton.
  - (* Put *)
    assert (Hil : (i < length calls)%nat)
      by (rewrite <- Hlen; by eapply lookup_lt_Some).
    destruct (lookup_lt_is_Some_2 calls i Hil) as [c Hc].
    destruct (decide (holder m = Some i)) as [Hh|Hh].
    + destruct (Hhold i Hh) as (Hnot & c0 & post & Hc0 & Hout & Ht).
      rewrite Hi in Ht. destruct post as [|q post]; [discriminate|].
      cbn in Ht. injection Ht as Hq Hr. subst q rest.
      exists done, (cur ++ [p]). unfold reached. cbn.
      split; [exact Hnd|]. split; [exact Hlt|].
      split; [by rewrite length_insert|].
      split; [by rewrite Hcon, app_assoc|].
      split; [intros E; congruence|]. split.
      * intros h Hh'. assert (h = i) as -> by congruence.
        split; [exact Hnot|]. exists c0, post. split; [exact Hc0|].
        split; [by rewrite <- app_assoc|].
        apply list_lookup_insert_eq. by rewrite Hlen.
      * intros j c' Hc' Hj. assert (i <> j) by congruence.
        rewrite list_lookup_insert_ne by assumption. by apply Hrest.
    + exfalso. destruct (Hrest i c Hc Hh) as [[_ Ht]|[_ Ht]];
        rewrite Hi in Ht; [discriminate|].
      rewrite body_guarded in Ht. discriminate.
Qed.

Lemma reached_rtc calls m :
  rtc step (start calls) m -> exists done cur, reached calls m done cur.
Proof.
  revert m. apply rtc_ind_r.
  - exists [], []. apply reached_start.
  - intros m m' _ Hstep (done & cur & IH). eapply reached_step; eassumption.
Qed.

Lemma reached_finished calls m done cur :
  reached calls m done cur -> finished m ->
  done ≡ₚ seq 0 (length calls) /\ console m = in_order calls done.
Proof.
  intros (Hnd & Hlt & Hlen & Hcon & Hnone & Hhold & Hrest) Hfin.
  unfold finished in Hfin. rewrite Forall_lookup in Hfin.
  assert (Hfree : holder m = None).
  { destruct (holder m) as [h|] eqn:Hh; [|reflexivity].
    destruct (Hhold h eq_refl) as (_ & c & post & _ & _ & Ht).
    apply Hfin in Ht. by destruct post. }
  split.
  - apply NoDup_Permutation; [exact Hnd | apply NoDup_seq|].
    intros i. rewrite elem_of_seq. split.
    + intros Hi. apply Hlt in Hi. lia.
    + intros [_ Hi]. destruct (lookup_lt_is_Some_2 calls i) as [c Hc]; [lia|].
      destruct (Hrest i c Hc) as [[Hin _]|[_ Ht]]; [congruence|exact Hin|].
      apply Hfin in Ht. rewrite body_guarded in Ht. discriminate.
  - by rewrite Hcon, (Hnone Hfree), app_nil_r.
Qed.

(** A thread that holds the mutex can write all it has to write. *)
Lemma run_puts i out : forall ths con,
  ths !! i = Some ((Put <$> out) ++ [Unlock]) ->
  rtc step {| threads := ths; holder := Some i; console := con |}
           {| threads := <[i:=[Unlock]]> ths; holder := Some i;
              console := con ++ out |}.
Proof.
  induction out as [|p out IH]; intros ths con Hi.
  - rewrite app_nil_r, list_insert_id by exact Hi. apply rtc_refl.
  - eapply rtc_l.
    + apply (step_put {| threads := ths; holder := Some i; console := con |}
               i p _ Hi).
    + cbn. replace (con ++ p :: out) with ((con ++ [p]) ++ out)
        by (by rewrite <- app_assoc).
      rewrite <- (list_insert_insert_eq ths i [Unlock]
                    ((Put <$> out) ++ [Unlock])).
      apply IH. apply list_lookup_insert_eq. by eapply lookup_lt_Some.
Qed.

(** With the mutex free, a callback that has not started can run from
    its first step to its last with no step of another thread between. *)
Lemma run_one i c ths con :
  ths !! i = Some (body_of c) ->
  rtc step {| threads := ths; holder := None; console := con |}
           {| threads := <[i:=[]]> ths; holder := None;
              console := con ++ output_of c |}.
Proof.
  intros Hi. rewrite body_guarded in Hi.
  assert (Hlt : (i < length ths)%nat) by (by eapply lookup_lt_Some).
  eapply rtc_l.
  { apply (step_lock {| threads := ths; holder := None; console := con |}
             i _ Hi eq_refl). }
  cbn. etrans; [apply run_puts; by apply list_lookup_insert_eq|].
  rewrite list_insert_insert_eq. apply rtc_once.
  pose proof (step_unlock
    {| threads := <[i:=[Unlock]]> ths; holder := Some i;
       console := con ++ output_of c |} i []) as S.
  cbn in S. rewrite list_insert_insert_eq in S. apply S; [|reflexivity].
  by apply list_lookup_insert_eq.
Qed.

Lemma retire_length order : forall ths, length (retire ths order) = length ths.
Proof.
  induction order as [|i order IH]; intros ths; cbn; [reflexivity|].
  by rewrite IH, length_insert.
Qed.

Lemma retire_lookup order : forall ths i,
  i ∈ order -> (i < length ths)%nat -> retire ths order !! i = Some [].
Proof.
  induction order as [|j order IH]; intros ths i Hi Hlt.
  - by apply elem_of_nil in Hi.
  - cbn. destruct (decide (i ∈ order)) as [Hin|Hin].
    + apply IH; [exact Hin | by rewrite length_insert].
    + apply elem_of_cons in Hi as [->|Hi]; [|done].
      clear IH. revert ths Hlt.
      induction order as [|k order IH]; intros ths Hlt; cbn.
      * by apply list_lookup_insert_eq.
      * apply not_elem_of_cons in Hin as [Hne Hin].
        rewrite list_insert_insert_ne by congruence.
        apply IH; [exact Hin | by rewrite length_insert].
Qed.

Lemma run_in_order calls order : forall ths con,
  NoDup order ->
  (forall i, i ∈ order ->
     exists c, calls !! i = Some c /\ ths !! i = Some (body_of c)) ->
  rtc step {| threads := ths; holder := None; console := con |}
           {| threads := retire ths order; holder := None;
              console := con ++ in_order calls order |}.
Proof.
  induction order as [|i order IH]; intros ths con Hnd Hall.
  - cbn. unfold in_order. cbn. rewrite app_nil_r. apply rtc_refl.
  - apply NoDup_cons in Hnd as [Hi Hnd].
    destruct (Hall i) as (c & Hc & Ht); [constructor|].
    etrans; [exact (run_one i c ths con Ht)|].
    unfold in_order. rewrite bind_cons, Hc. cbn. rewrite app_assoc.
    apply IH; [exact Hnd|].
    intros j Hj. destruct (Hall j) as (c' & Hc' & Ht');
      [by apply list_elem_of_further|].
    exists c'. split; [exact Hc'|].
    rewrite list_lookup_insert_ne; [exact Ht'|]. intros ->. done.
Qed.

(** C9: every callback is one region guarded by the mutex with all its
    writes inside.  Whatever the threads do, the console always holds the
    whole outputs of distinct calls followed by what the holder of the
    mutex has written so far of its own; when all calls have returned it
    holds the outputs of all calls, each whole, in some order.  And every
    order of the calls is the order of some run: the mutex decides
    nothing about it. *)
Theorem callbacks_write_under_mutex (calls : list invocation) :
  (forall c, body_of c = Lock :: (Put <$> output_of c) ++ [Unlock]) /\
  (forall m, rtc step (start calls) m ->
     exists done cur,
       NoDup done /\ console m = in_order calls done ++ cur /\
       match holder m with
       | None => cur = []
       | Some h =>
           (h ∉ done) /\
           exists c, calls !! h = Some c /\ cur `prefix_of` output_of c
       end) /\
  (forall m, rtc step (start calls) m -> finished m ->
     exists order, order ≡ₚ seq 0 (length calls) /\
                   console m = in_order calls order) /\
  (forall order, order ≡ₚ seq 0 (length calls) ->
     exists m, rtc step (start calls) m /\ finished m /\
               console m = in_order calls order).
Proof.
  split; [exact body_guarded|]. split; [|split].
  - intros m Hm.
    destruct (reached_rtc _ _ Hm)
      as (done & cur & Hnd & _ & _ & Hcon & Hnone & Hhold & _).
    exists done, cur. split; [exact Hnd|]. split; [exact Hcon|].
    destruct (holder m) as [h|]; [|by apply Hnone].
    destruct (Hhold h eq_refl) as (Hnot & c & post & Hc & Hout & _).
    split; [exact Hnot|]. exists c. split; [exact Hc|]. by exists post.
  - intros m Hm Hfin. destruct (reached_rtc _ _ Hm) as (done & cur & Hr).
    exists done. eapply reached_finished; eassumption.
  - intros order Hp.
    assert (Hnd : NoDup order) by (rewrite Hp; apply NoDup_seq).
    assert (Hin : forall i, i ∈ order <-> (i < length calls)%nat).
    { intros i. rewrite Hp, elem_of_seq. lia. }
    exists {| threads := retire (body_of <$> calls) order; holder := None;
              console := in_order calls order |}.
    split; [|split; [|reflexivity]].
    + apply (run_in_order calls order (body_of <$> calls) [] Hnd).
      intros i Hi. apply Hin in Hi.
      destruct (lookup_lt_is_Some_2 calls i Hi) as [c Hc]. exists c.
      split; [exact Hc|]. by rewrite list_lookup_fmap, Hc.
    + unfold finished. cbn. apply Forall_lookup. intros i t Ht.
      assert (Hi : (i < length calls)%nat).
      { apply lookup_lt_Some in Ht.
        by rewrite retire_length, length_fmap in Ht. }
      rewrite retire_lookup in Ht; [congruence | by apply Hin|].
      by rewrite length_fmap.
Qed.

(** * Further properties of [main] *)

(** Where an event of [main]'s run comes from. *)
Lemma main_trace_elem env fuel (e : event) :
  e ∈ trace (main env fuel) ->
  e ∈ trace (setup env) \/
  e ∈ [Cout PEndl; ApiIsOpened; Cerr (PStr "Error: Open camera failed");
       Cerr PEndl] \/
  e ∈ greeting \/
  (exists w, e = NamedWindow w) \/
  (is_opened env = true /\ e ∈ trace (main_loop env fuel)) \/
  (e = ApiClose /\ exists n, result (main_loop env fuel) = Ret n).
Proof.
  intros H. destruct (is_opened env) eqn:E;
    [rewrite main_opened in H by exact E
    |rewrite main_not_opened in H by exact E]; cbn [trace fst] in H.
  - apply elem_of_app in H as [H|H]; [by left|].
    apply elem_of_app in H as [H|H]; [by right; right; left|].
    apply elem_of_app in H as [H|H].
    { do 3 right. left.
      destruct (supports env IMAGE_LEFT_COLOR),
        (supports env IMAGE_RIGHT_COLOR), (supports env IMAGE_DEPTH);
        cbn in H; elem_inv; eauto. }
    apply elem_of_app in H as [H|H]; [by do 4 right; left|].
    do 5 right. destruct (result (main_loop env fuel)); elem_inv; eauto.
  - apply elem_of_app in H as [H|H]; [by left | by right; left].
Qed.

Ltac Forall_list tac :=
  repeat (apply List.Forall_cons; [tac|]); try apply List.Forall_nil.

Section IterationFacts.

Variable env : Env.
Variable request : StreamRequest.
Variable l r d : bool.

Lemma render_left_iteration k :
  Forall (iteration_event env request l r d k)
    (trace (render_left env l k {| updates := S k |})).
Proof.
  unfold render_left. destruct l eqn:El; [|constructor]. cbn.
  destruct (frame_ready env k IMAGE_LEFT_COLOR) eqn:F; cbn;
    [|Forall_list ltac:(by cbn)].
  destruct (converts env _ _) eqn:C; cbn;
    Forall_list ltac:(cbn; try done; eauto 10).
Qed.

Lemma render_right_iteration k :
  Forall (iteration_event env request l r d k) (trace (render_right env r k)).
Proof.
  unfold render_right. destruct r eqn:Er; [|constructor]. cbn.
  destruct (frame_ready env k IMAGE_RIGHT_COLOR) eqn:F; cbn;
    [|Forall_list ltac:(by cbn)].
  destruct (converts env _ _) eqn:C; cbn;
    Forall_list ltac:(cbn; try done; eauto 10).
Qed.

Lemma render_depth_iteration k :
  Forall (iteration_event env request l r d k)
    (trace (render_depth env request d k)).
Proof.
  unfold render_depth. destruct d eqn:Ed; [|constructor]. cbn.
  destruct (frame_ready env k IMAGE_DEPTH) eqn:F; cbn;
    [|Forall_list ltac:(by cbn)].
  destruct (decide (depth_mode request = DEPTH_COLORFUL)) as [M|M] eqn:D;
    cbn.
  - destruct (converts env _ _) eqn:C; cbn;
      Forall_list ltac:(unfold iteration_event, image_of_iteration;
                        cbn; rewrite ?D; try done; eauto 10).
  - Forall_list ltac:(unfold iteration_event, image_of_iteration;
                      cbn; rewrite ?D; try done; eauto 10).
Qed.

Lemma loop_body_iteration k :
  Forall (iteration_event env request l r d k)
    (trace (loop_body env request l r d k)).
Proof.
  unfold loop_body.
  repeat (apply Forall_trace_bind; [|intros ?]);
    auto using render_left_iteration, render_right_iteration,
      render_depth_iteration; Forall_list ltac:(by cbn).
Qed.

Lemma display_loop_iteration fuel k0 :
  Forall (fun e => exists k, (k0 <= k < k0 + fuel)%nat /\
                             iteration_event env request l r d k e)
    (trace (display_loop env request l r d fuel k0)).
Proof.
  revert k0. induction fuel as [|fuel IH]; intros k0; cbn [display_loop].
  - constructor.
  - apply Forall_trace_bind.
    + eapply Forall_impl; [apply loop_body_iteration|].
      intros e He. exists k0. split; [lia | exact He].
    + intros key. destruct (is_quit_key key); [constructor|].
      eapply Forall_impl; [apply IH|].
      intros e (k & Hk & He). exists k. split; [lia | exact He].
Qed.

End IterationFacts.

Lemma main_loop_event env fuel (e : event) :
  e ∈ trace (main_loop env fuel) ->
  exists k, (k < fuel)%nat /\
    iteration_event env (configure_request (selected_request env))
      (supports env IMAGE_LEFT_COLOR) (supports env IMAGE_RIGHT_COLOR)
      (supports env IMAGE_DEPTH) k e.
Proof.
  intros H. unfold main_loop in H.
  eapply Forall_forall in H; [|apply display_loop_iteration].
  destruct H as (k & Hk & He). exists k. split; [lia | exact He].
Qed.

(** X1: main closes the device exactly in the runs that return 0, and
    then as the last thing it does; a run that ends at the open check,
    or in a null conversion result, or that is still in the loop, has
    made no call of Close. *)
Theorem close_iff_returns_0 (env : Env) (fuel : nat) :
  (ApiClose ∈ trace (main env fuel) <-> result (main env fuel) = Ret 0) /\
  (result (main env fuel) = Ret 0 ->
   last (trace (main env fuel)) = Some ApiClose) /\
  count_if (fun e => match e with ApiClose => true | _ => false end)
    (trace (main env fuel)) =
  match result (main env fuel) with Ret 0 => 1%nat | _ => 0%nat end.
Proof.
  assert (Hc : forall t : list event, Forall (loop_event
                 (supports env IMAGE_LEFT_COLOR)
                 (supports env IMAGE_RIGHT_COLOR)
                 (supports env IMAGE_DEPTH)) t ->
               count_if (fun e => match e with ApiClose => true
                                  | _ => false end) t = 0%nat).
  { induction 1 as [|e t He _ IH]; [reflexivity|]. cbn. rewrite IH.
    by destruct e. }
  assert (Ha : forall f (a b : list event),
             count_if f (a ++ b) = (count_if f a + count_if f b)%nat).
  { intros f a b. induction a as [|e a IH]; [reflexivity|]. cbn.
    rewrite IH. lia. }
  pose proof (display_loop_events env
    (configure_request (selected_request env))
    (supports env IMAGE_LEFT_COLOR) (supports env IMAGE_RIGHT_COLOR)
    (supports env IMAGE_DEPTH) fuel 0%nat) as F.
  fold (main_loop env fuel) in F.
  destruct (is_opened env) eqn:E.
  - rewrite main_opened by exact E. cbn [trace result fst snd].
    rewrite !Ha, (Hc _ F).
    destruct (result (main_loop env fuel)) as [n| |] eqn:R.
    + split; [|split].
      * split; [reflexivity|]. intros _. rewrite !elem_of_app.
        do 4 right. constructor.
      * intros _. rewrite !app_assoc. apply last_snoc.
      * destruct (supports env IMAGE_LEFT_COLOR),
          (supports env IMAGE_RIGHT_COLOR), (supports env IMAGE_DEPTH);
          reflexivity.
    + split; [|split]; [|discriminate|].
      * split; [|discriminate]. intros H. unfold greeting in H.
        rewrite !elem_of_app in H. destruct H as [H|[H|[H|[H|H]]]].
        -- cbn in H. elem_inv; discriminate.
        -- elem_inv; discriminate.
        -- destruct (supports env IMAGE_LEFT_COLOR),
             (supports env IMAGE_RIGHT_COLOR), (supports env IMAGE_DEPTH);
             cbn in H; elem_inv; discriminate.
        -- eapply Forall_forall in H; [|exact F]. destruct H.
        -- by apply elem_of_nil in H.
      * destruct (supports env IMAGE_LEFT_COLOR),
          (supports env IMAGE_RIGHT_COLOR), (supports env IMAGE_DEPTH);
          reflexivity.
    + split; [|split]; [|discriminate|].
      * split; [|discriminate]. intros H. unfold greeting in H.
        rewrite !elem_of_app in H. destruct H as [H|[H|[H|[H|H]]]].
        -- cbn in H. elem_inv; discriminate.
        -- elem_inv; discriminate.
        -- destruct (supports env IMAGE_LEFT_COLOR),
             (supports env IMAGE_RIGHT_COLOR), (supports env IMAGE_DEPTH);
             cbn in H; elem_inv; discriminate.
        -- eapply Forall_forall in H; [|exact F]. destruct H.
        -- by apply elem_of_nil in H.
      * destruct (supports env IMAGE_LEFT_COLOR),
          (supports env IMAGE_RIGHT_COLOR), (supports env IMAGE_DEPTH);
          reflexivity.
  - rewrite main_not_opened by exact E. cbn [trace result fst snd].
    split; [|split]; [|discriminate|reflexivity].
    split; [|discriminate]. intros H. cbn in H. elem_inv; discriminate.
Qed.

(** X2: what main itself prints is fixed by the open check alone: the
    five greeting writes after the empty line when the device is open,
    the error line when it is not.  Nothing is printed from inside the
    loop, whatever frames and keys arrive. *)
Theorem main_prints_only_before_loop (env : Env) (fuel : nat) :
  printed (trace (main env fuel)) =
  if is_opened env then
    [Cout PEndl; Cout (PStr "Open device success"); Cout PEndl; Cout PEndl;
     Cout (PStr "Press ESC/Q on Windows to terminate"); Cout PEndl]
  else
    [Cout PEndl; Cerr (PStr "Error: Open camera failed"); Cerr PEndl].
Proof.
  assert (Hc : forall t : list event, Forall (loop_event
                 (supports env IMAGE_LEFT_COLOR)
                 (supports env IMAGE_RIGHT_COLOR)
                 (supports env IMAGE_DEPTH)) t -> printed t = []).
  { induction 1 as [|e t He _ IH]; [reflexivity|]. unfold printed in *.
    cbn. rewrite IH. by destruct e. }
  pose proof (display_loop_events env
    (configure_request (selected_request env))
    (supports env IMAGE_LEFT_COLOR) (supports env IMAGE_RIGHT_COLOR)
    (supports env IMAGE_DEPTH) fuel 0%nat) as F.
  fold (main_loop env fuel) in F. apply Hc in F.
  destruct (is_opened env) eqn:E.
  - rewrite main_opened by exact E. cbn [trace fst]. unfold printed.
    rewrite !List.filter_app. fold (printed (trace (main_loop env fuel))).
    rewrite F.
    destruct (supports env IMAGE_LEFT_COLOR),
      (supports env IMAGE_RIGHT_COLOR), (supports env IMAGE_DEPTH),
      (result (main_loop env fuel)); reflexivity.
  - rewrite main_not_opened by exact E. reflexivity.
Qed.


(** X4: every image main shows was really given by the SDK (its frame
    was there and, if it is a converted image, the conversion gave one),
    and it is the image of some iteration for its stream: the BGR
    conversion of that iteration's frame for the color streams and for
    the colorful depth mode, the depth frame itself otherwise. *)
Theorem shown_images_are_given (env : Env) (fuel : nat) (w : string)
    (i : ImagePtr) :
  Imshow w (ToMat i) ∈ trace (main env fuel) ->
  given env i /\
  exists k, (k < fuel)%nat /\
    image_of_iteration (selected_request env) k i.
Proof.
  intros H. apply main_trace_elem in H.
  destruct H as [H|[H|[H|[[w' H]|[[E H]|[H _]]]]]]; try discriminate;
    try (unfold greeting in H; cbn in H; elem_inv; discriminate).
  apply main_loop_event in H as (k & Hk & Hi & Hg).
  split; [exact Hg|]. exists k. split; [exact Hk | exact Hi].
Qed.

(** X5: the frame rate is drawn on the left image only, at the bottom
    right, in iteration [k] from the counter after its [k]+1st update;
    the stream data drawn on an image is that of the image's own stream
    in the same iteration, at the top right; the size is drawn at the top
    left. *)
Theorem overlays_match_their_image (env : Env) (fuel : nat) :
  (forall i c g, DrawInformation (ToMat i) c g ∈ trace (main env fuel) ->
     exists k, (k < fuel)%nat /\
       i = To (Frame IMAGE_LEFT_COLOR k) COLOR_BGR /\
       c = {| updates := S k |} /\ g = BOTTOM_RIGHT) /\
  (forall i data g, DrawStreamData (ToMat i) data g ∈ trace (main env fuel) ->
     exists k, (k < fuel)%nat /\
       image_of_iteration (selected_request env) k i /\
       data = {| img := Some (Frame (stream_of i) k) |} /\ g = TOP_RIGHT) /\
  (forall i g, DrawSize (ToMat i) g ∈ trace (main env fuel) -> g = TOP_LEFT).
Proof.
  split; [|split].
  - intros i c g H. apply main_trace_elem in H.
    destruct H as [H|[H|[H|[[w' H]|[[E H]|[H _]]]]]]; try discriminate;
      try (unfold greeting in H; cbn in H; elem_inv; discriminate).
    apply main_loop_event in H as (k & Hk & Hi & _ & Hc & Hg). eauto.
  - intros i data g H. apply main_trace_elem in H.
    destruct H as [H|[H|[H|[[w' H]|[[E H]|[H _]]]]]]; try discriminate;
      try (unfold greeting in H; cbn in H; elem_inv; discriminate).
    apply main_loop_event in H as (k & Hk & Hi & _ & Hc & Hg). eauto.
  - intros i g H. apply main_trace_elem in H.
    destruct H as [H|[H|[H|[[w' H]|[[E H]|[H _]]]]]]; try discriminate;
      try (unfold greeting in H; cbn in H; elem_inv; discriminate).
    apply main_loop_event in H as (k & Hk & Hi & _ & Hg). exact Hg.
Qed.

Lemma count_if_app f (a b : list event) :
  count_if f (a ++ b) = (count_if f a + count_if f b)%nat.
Proof.
  induction a as [|e a IH]; [reflexivity|]. cbn. rewrite IH. lia.
Qed.

Section Counts.

Variable env : Env.
Variable request : StreamRequest.
Variable l r d : bool.

Lemma render_left_counts k c : render_counts IMAGE_LEFT_COLOR l
                                 (render_left env l k c).
Proof.
  unfold render_counts, render_left. destruct l; [|by repeat split]. cbn.
  destruct (frame_ready env k IMAGE_LEFT_COLOR); cbn;
    [|by repeat split; try intros _ []].
  destruct (converts env _ _); cbn;
    repeat split; try discriminate; by intros _ [].
Qed.

Lemma render_right_counts k : render_counts IMAGE_RIGHT_COLOR r
                                (render_right env r k).
Proof.
  unfold render_counts, render_right. destruct r; [|by repeat split]. cbn.
  destruct (frame_ready env k IMAGE_RIGHT_COLOR); cbn;
    [|by repeat split; try intros _ []].
  destruct (converts env _ _); cbn;
    repeat split; try discriminate; by intros _ [].
Qed.

Lemma render_depth_counts k : render_counts IMAGE_DEPTH d
                                (render_depth env request d k).
Proof.
  unfold render_counts, render_depth. destruct d; [|by repeat split]. cbn.
  destruct (frame_ready env k IMAGE_DEPTH); cbn;
    [|by repeat split; try intros _ []].
  destruct (decide _); cbn; [|by repeat split; try intros _ []].
  destruct (converts env _ _); cbn;
    repeat split; try discriminate; by intros _ [].
Qed.

(** An iteration that reads its key has waited once, updated the counter
    once, polled the keyboard once and fetched once from each stream
    whose flag is set. *)
Lemma loop_body_counts k :
  let t := trace (loop_body env request l r d k) in
  count_if is_WaitForStreams t = 1%nat /\
  count_if is_CounterUpdate t = 1%nat /\
  (count_if is_WaitKey t =
   match result (loop_body env request l r d k) with
   | Ret _ => 1%nat | _ => 0%nat end) /\
  (forall key, result (loop_body env request l r d k) = Ret key ->
   forall s, count_if (is_GetStreamData s) t =
             if flag_of l r d s then 1%nat else 0%nat).
Proof.
  cbn zeta. unfold loop_body.
  destruct (render_left_counts k (Update {| updates := k |}))
    as (Lw & Lc & Lk & Lg).
  destruct (render_right_counts k) as (Rw & Rc & Rk & Rg).
  destruct (render_depth_counts k) as (Dw & Dc & Dk & Dg).
  rewrite !trace_bind, !result_bind. cbn [emit trace result fst snd].
  destruct (render_left_result env l k (Update {| updates := k |}))
    as [EL|EL]; rewrite EL in *;
    [destruct (render_right_result env r k) as [ER|ER]; rewrite ER in *;
     [destruct (render_depth_result env request d k) as [ED|ED];
      rewrite ED in *|]|];
    rewrite ?trace_bind, ?count_if_app, ?Lw, ?Lc, ?Lk, ?Rw, ?Rc, ?Rk,
      ?Dw, ?Dc, ?Dk; cbn; (split; [reflexivity|]); (split; [reflexivity|]);
    (split; [reflexivity|]); intros key0 Hk0; try discriminate Hk0.
  intros s. rewrite !count_if_app.
  rewrite (Lg eq_refl), (Rg eq_refl), (Dg eq_refl). cbn.
  destruct s, l, r, d; reflexivity.
Qed.

Lemma display_loop_counts fuel : forall k0,
  let t := trace (display_loop env request l r d fuel k0) in
  count_if is_WaitForStreams t = count_if is_CounterUpdate t /\
  (count_if is_WaitForStreams t <= fuel)%nat /\
  match result (display_loop env request l r d fuel k0) with
  | Ret n =>
      n = (k0 + count_if is_WaitKey t)%nat /\
      count_if is_WaitForStreams t = count_if is_WaitKey t /\
      forall s, count_if (is_GetStreamData s) t =
                if flag_of l r d s then count_if is_WaitKey t else 0%nat
  | NullDeref => count_if is_WaitForStreams t = S (count_if is_WaitKey t)
  | Unfinished =>
      count_if is_WaitForStreams t = fuel /\ count_if is_WaitKey t = fuel
  end.
Proof.
  induction fuel as [|fuel IH]; intros k0; [by cbn|].
  cbn zeta. cbn [display_loop]. rewrite trace_bind, result_bind.
  rewrite !count_if_app.
  destruct (loop_body_counts k0) as (Hw & Hc & Hk & Hg).
  rewrite Hw, Hc, Hk.
  destruct (result (loop_body env request l r d k0)) as [key| |] eqn:B.
  - destruct (is_quit_key key).
    + cbn -[loop_body]. split; [reflexivity|]. split; [lia|]. split; [lia|].
      split; [reflexivity|]. intros s.
      rewrite count_if_app, (Hg key eq_refl s). cbn.
      destruct (flag_of l r d s); reflexivity.
    + destruct (IH (S k0)) as (Hw' & Hle & Hr). cbn zeta in Hw', Hle, Hr.
      split; [lia|]. split; [lia|].
      destruct (result (display_loop env request l r d fuel (S k0)))
        as [n| |].
      * destruct Hr as (-> & Hwk & Hgs). split; [lia|]. split; [lia|].
        intros s. rewrite count_if_app, (Hg key eq_refl s), Hgs.
        destruct (flag_of l r d s); lia.
      * lia.
      * lia.
  - cbn. split; [reflexivity|]. split; lia.
  - destruct (loop_body_result env request l r d k0) as [E|E];
      rewrite B in E; discriminate.
Qed.

End Counts.

(** X6: in a run that returns 0 after [n] iterations, main has called
    WaitForStreams, Counter::Update and waitKey [n] times each, and
    GetStreamData [n] times for every supported stream and never for
    another: one fetch per stream and one key poll in every iteration.
    In any run the calls of WaitForStreams are at most those followed and
    as many as the counter updates. *)
Theorem one_fetch_and_one_poll_per_iteration (env : Env) (fuel : nat) :
  let t := trace (main env fuel) in
  count_if is_WaitForStreams t = count_if is_CounterUpdate t /\
  (count_if is_WaitForStreams t <= fuel)%nat /\
  (count_if is_WaitKey t <= count_if is_WaitForStreams t)%nat /\
  (forall n, is_opened env = true ->
     result (main_loop env fuel) = Ret n ->
     result (main env fuel) = Ret 0 /\
     count_if is_WaitForStreams t = n /\
     count_if is_WaitKey t = n /\
     forall s, count_if (is_GetStreamData s) t =
               if supports env s then n else 0%nat).
Proof.
  cbn zeta.
  pose proof (display_loop_counts env
    (configure_request (selected_request env))
    (supports env IMAGE_LEFT_COLOR) (supports env IMAGE_RIGHT_COLOR)
    (supports env IMAGE_DEPTH) fuel 0%nat) as (Hw & Hle & Hr).
  cbn zeta in Hw, Hle, Hr. fold (main_loop env fuel) in Hw, Hle, Hr.
  destruct (is_opened env) eqn:E.
  - rewrite main_opened by exact E. cbn [trace result fst snd].
    rewrite !count_if_app.
    assert (Hz : forall f, (f = is_WaitForStreams \/ f = is_CounterUpdate \/
                            f = is_WaitKey \/ exists s, f = is_GetStreamData s) ->
              count_if f (trace (setup env)) = 0%nat /\
              count_if f greeting = 0%nat /\
              count_if f (trace (create_windows
                 (supports env IMAGE_LEFT_COLOR)
                 (supports env IMAGE_RIGHT_COLOR)
                 (supports env IMAGE_DEPTH))) = 0%nat /\
              forall o : outcome nat,
                count_if f (match o with Ret _ => [ApiClose] | _ => [] end)
                = 0%nat).
    { intros f Hf.
      destruct (supports env IMAGE_LEFT_COLOR),
        (supports env IMAGE_RIGHT_COLOR), (supports env IMAGE_DEPTH);
        destruct Hf as [->|[->|[->|[s ->]]]];
        (repeat split; try reflexivity); by intros []. }
    destruct (Hz is_WaitForStreams) as (-> & -> & -> & ->); [tauto|].
    destruct (Hz is_CounterUpdate) as (-> & -> & -> & ->); [tauto|].
    destruct (Hz is_WaitKey) as (-> & -> & -> & ->); [tauto|].
    cbn [Nat.add]. rewrite !Nat.add_0_r.
    split; [exact Hw|]. split; [exact Hle|].
    destruct (result (main_loop env fuel)) as [n| |] eqn:R.
    + destruct Hr as (Hn & Hwk & Hgs). split; [lia|].
      intros n' _ [= <-]. split; [reflexivity|]. split; [lia|].
      split; [lia|]. intros s. rewrite !count_if_app.
      destruct (Hz (is_GetStreamData s)) as (-> & -> & -> & Hcl); [eauto 6|].
      rewrite (Hcl (Ret n)), Hgs. cbn [Nat.add]. rewrite Nat.add_0_r.
      destruct s; cbn; [destruct (supports env IMAGE_LEFT_COLOR)
                       |destruct (supports env IMAGE_RIGHT_COLOR)
                       |destruct (supports env IMAGE_DEPTH)]; lia.
    + split; [lia|]. intros n' _ [=].
    + split; [lia|]. intros n' _ [=].
  - rewrite main_not_opened by exact E. cbn.
    split; [reflexivity|]. split; [lia|]. split; [lia|]. intros n [=].
Qed.

Lemma last_app_r {X} (a b : list X) (x : X) :
  last b = Some x -> last (a ++ b) = Some x.
Proof. intros H. by rewrite last_app, H. Qed.

Section Faults.

Variable env : Env.
Variable request : StreamRequest.
Variable l r d : bool.

Lemma render_left_fault k c :
  result (render_left env l k c) = NullDeref ->
  exists s f, last (trace (render_left env l k c))
              = Some (ImageTo (Frame s k) f) /\
              converts env (Frame s k) f = false.
Proof.
  unfold render_left. destruct l; [|discriminate]. cbn.
  destruct (frame_ready env k IMAGE_LEFT_COLOR); cbn; [|discriminate].
  destruct (converts env _ _) eqn:C; cbn; [discriminate|]. eauto.
Qed.

Lemma render_right_fault k :
  result (render_right env r k) = NullDeref ->
  exists s f, last (trace (render_right env r k))
              = Some (ImageTo (Frame s k) f) /\
              converts env (Frame s k) f = false.
Proof.
  unfold render_right. destruct r; [|discriminate]. cbn.
  destruct (frame_ready env k IMAGE_RIGHT_COLOR); cbn; [|discriminate].
  destruct (converts env _ _) eqn:C; cbn; [discriminate|]. eauto.
Qed.

Lemma render_depth_fault k :
  result (render_depth env request d k) = NullDeref ->
  exists s f, last (trace (render_depth env request d k))
              = Some (ImageTo (Frame s k) f) /\
              converts env (Frame s k) f = false.
Proof.
  unfold render_depth. destruct d; [|discriminate]. cbn.
  destruct (frame_ready env k IMAGE_DEPTH); cbn; [|discriminate].
  destruct (decide _); cbn; [|discriminate].
  destruct (converts env _ _) eqn:C; cbn; [discriminate|]. eauto.
Qed.

Lemma loop_body_fault k :
  result (loop_body env request l r d k) = NullDeref ->
  exists s f, last (trace (loop_body env request l r d k))
              = Some (ImageTo (Frame s k) f) /\
              converts env (Frame s k) f = false.
Proof.
  unfold loop_body. rewrite !trace_bind, !result_bind.
  cbn [emit trace result fst snd].
  destruct (render_left_result env l k (Update {| updates := k |}))
    as [EL|EL]; rewrite EL.
  - destruct (render_right_result env r k) as [ER|ER]; rewrite ER.
    + destruct (render_depth_result env request d k) as [ED|ED]; rewrite ED;
        [discriminate|].
      intros _. destruct (render_depth_fault k ED) as (s & f & Hl & Hc).
      exists s, f. split; [|exact Hc].
      do 4 apply last_app_r. rewrite app_nil_r. exact Hl.
    + intros _. destruct (render_right_fault k ER) as (s & f & Hl & Hc).
      exists s, f. split; [|exact Hc].
      do 3 apply last_app_r. rewrite app_nil_r. exact Hl.
  - intros _. destruct (render_left_fault k _ EL) as (s & f & Hl & Hc).
    exists s, f. split; [|exact Hc].
    do 2 apply last_app_r. rewrite app_nil_r. exact Hl.
Qed.

Lemma display_loop_fault fuel : forall k0,
  result (display_loop env request l r d fuel k0) = NullDeref ->
  exists k s f, (k0 <= k < k0 + fuel)%nat /\
    last (trace (display_loop env request l r d fuel k0))
    = Some (ImageTo (Frame s k) f) /\
    converts env (Frame s k) f = false.
Proof.
  induction fuel as [|fuel IH]; intros k0; [discriminate|].
  cbn [display_loop]. rewrite trace_bind, result_bind.
  destruct (result (loop_body env request l r d k0)) as [key| |] eqn:B.
  - destruct (is_quit_key key); [discriminate|].
    intros H. destruct (IH _ H) as (k & s & f & Hk & Hl & Hc).
    exists k, s, f. split; [lia|]. split; [|exact Hc].
    by apply last_app_r.
  - intros _. destruct (loop_body_fault k0 B) as (s & f & Hl & Hc).
    exists k0, s, f. split; [lia|]. split; [|exact Hc].
    by rewrite app_nil_r.
  - discriminate.
Qed.

(** With every conversion of a frame giving an image, the loop is left
    at the first quit key. *)
Lemma display_loop_returns fuel : forall k0 k,
  (forall s j f, converts env (Frame s j) f = true) ->
  (k0 <= k < k0 + fuel)%nat ->
  is_quit_key (to_char (wait_key env k)) = true ->
  exists n, (n <= S k)%nat /\
            result (display_loop env request l r d fuel k0) = Ret n.
Proof.
  induction fuel as [|fuel IH]; intros k0 k Hc Hk Hq; [lia|].
  rewrite display_loop_S.
  destruct (loop_body_result env request l r d k0) as [B|B].
  - rewrite B. destruct (is_quit_key (to_char (wait_key env k0))) eqn:Q.
    + exists (S k0). split; [lia | reflexivity].
    + assert (k <> k0) by congruence.
      apply (IH (S k0) k Hc); [lia | exact Hq].
  - destruct (loop_body_fault k0 B) as (s & f & _ & Hf).
    rewrite Hc in Hf. discriminate.
Qed.

End Faults.

(** X7: the only null pointer main can dereference is the result of a
    conversion that gave no image: a run that ends so has the call of To
    on a frame as its last event.  If To gives an image for every frame,
    no run ends so. *)
Theorem null_deref_only_after_failed_conversion (env : Env) (fuel : nat) :
  (result (main env fuel) = NullDeref ->
   is_opened env = true /\
   exists s k f, (k < fuel)%nat /\
     last (trace (main env fuel)) = Some (ImageTo (Frame s k) f) /\
     converts env (Frame s k) f = false) /\
  ((forall s k f, converts env (Frame s k) f = true) ->
   result (main env fuel) <> NullDeref).
Proof.
  assert (H1 : result (main env fuel) = NullDeref ->
   is_opened env = true /\
   exists s k f, (k < fuel)%nat /\
     last (trace (main env fuel)) = Some (ImageTo (Frame s k) f) /\
     converts env (Frame s k) f = false).
  { destruct (is_opened env) eqn:E.
    - rewrite main_opened by exact E. cbn [trace result fst snd].
      destruct (result (main_loop env fuel)) eqn:R; try discriminate.
      intros _. split; [reflexivity|].
      destruct (display_loop_fault env
        (configure_request (selected_request env))
        (supports env IMAGE_LEFT_COLOR) (supports env IMAGE_RIGHT_COLOR)
        (supports env IMAGE_DEPTH) fuel 0%nat R)
        as (k & s & f & Hk & Hl & Hc).
      exists s, k, f. split; [lia|]. split; [|exact Hc].
      do 3 apply last_app_r. rewrite app_nil_r. exact Hl.
    - rewrite main_not_opened by exact E. discriminate. }
  split; [exact H1|]. intros Hc R.
  destruct (H1 R) as (_ & s & k & f & _ & _ & Hf).
  rewrite Hc in Hf. discriminate.
Qed.

(** X8: with the device open and every conversion of a frame giving an
    image, a quit key in iteration [k] makes main return 0 as soon as
    [k]+1 iterations are followed, after at most [k]+1 iterations. *)
Theorem quit_key_ends_main (env : Env) (fuel k : nat) :
  is_opened env = true ->
  (forall s j f, converts env (Frame s j) f = true) ->
  (k < fuel)%nat ->
  (let key := to_char (wait_key env k) in
   key = 27 \/ key = 113 \/ key = 81) ->
  result (main env fuel) = Ret 0 /\
  exists n, (n <= S k)%nat /\ result (main_loop env fuel) = Ret n.
Proof.
  intros E Hc Hk Hq. cbn zeta in Hq. apply is_quit_key_spec in Hq.
  destruct (display_loop_returns env
    (configure_request (selected_request env))
    (supports env IMAGE_LEFT_COLOR) (supports env IMAGE_RIGHT_COLOR)
    (supports env IMAGE_DEPTH) fuel 0%nat k Hc ltac:(lia) Hq)
    as (n & Hn & R).
  fold (main_loop env fuel) in R.
  rewrite main_opened by exact E. cbn [result snd]. rewrite R.
  split; [reflexivity|]. exists n. split; [exact Hn | reflexivity].
Qed.

(** X9: the key the loop compares is the low byte of what waitKey
    returned, read as a signed char: it lies in [-128,127], it agrees
    with waitKey's value modulo 256, and whether it is a quit key depends
    on that low byte alone; so modifier bits above the low byte change
    nothing, and waitKey's -1 for no key is not a quit key. *)
Theorem quit_key_is_low_byte (z : Z) :
  -128 <= to_char z <= 127 /\
  to_char z mod 256 = z mod 256 /\
  (is_quit_key (to_char z) = true <->
   z mod 256 = 27 \/ z mod 256 = 113 \/ z mod 256 = 81) /\
  (forall n, to_char (z + 256 * n) = to_char z) /\
  is_quit_key (to_char (-1)) = false.
Proof.
  pose proof (Z.mod_pos_bound z 256 ltac:(lia)) as Hb.
  split; [|split; [|split; [|split]]].
  - unfold to_char. destruct (z mod 256 <? 128) eqn:E;
      [apply Z.ltb_lt in E | apply Z.ltb_ge in E]; lia.
  - unfold to_char. destruct (z mod 256 <? 128) eqn:E.
    + apply Z.mod_mod. lia.
    + replace (z mod 256 - 256) with (z mod 256 + (-1) * 256) by lia.
      rewrite Z_mod_plus_full. apply Z.mod_mod. lia.
  - apply is_quit_key_to_char.
  - intros n. unfold to_char.
    by rewrite (Z.mul_comm 256 n), Z_mod_plus_full.
  - reflexivity.
Qed.

(** * Further properties of the callbacks *)

(** X10: a call of a callback writes at most one line: its output is
    one run of operands without a line end, then the line end and the
    flush; or, for a motion sample with neither flag, the flush alone. *)
Theorem callback_writes_one_line (c : invocation) :
  (exists line, output_of c = line ++ [PEndl; PFlush] /\
                (PEndl ∉ line) /\ (PFlush ∉ line) /\ line <> []) \/
  (output_of c = [PFlush] /\
   exists imu, c = OnMotion imu /\ flag imu <> MYNTEYE_IMU_ACCEL /\
               flag imu <> MYNTEYE_IMU_GYRO).
Proof.
  destruct c as [info|data_img|imu].
  - left.
    exists [PStr "  [img_info] fid: "; PVal (frame_id info);
            PStr ", stamp: "; PVal (timestamp info);
            PStr ", expos: "; PVal (exposure_time info)].
    split; [reflexivity|].
    repeat split; try discriminate; intros H; elem_inv; discriminate.
  - left.
    exists [PStr "  ["; PVal (type data_img); PStr "] fid: ";
            PVal (Image_frame_id data_img)].
    split; [reflexivity|].
    repeat split; try discriminate; intros H; elem_inv; discriminate.
  - unfold output_of. cbn [body_of]. unfold motion_callback.
    destruct (flag imu =? MYNTEYE_IMU_ACCEL) eqn:A;
      [|destruct (flag imu =? MYNTEYE_IMU_GYRO) eqn:G].
    + left.
      exists (removelast (console_of (accel_line imu))).
      split; [reflexivity|].
      repeat split; try discriminate; intros H; cbn in H; elem_inv;
        discriminate.
    + left.
      exists (removelast (console_of (gyro_line imu))).
      split; [reflexivity|].
      repeat split; try discriminate; intros H; cbn in H; elem_inv;
        discriminate.
    + right. split; [reflexivity|]. exists imu.
      apply Z.eqb_neq in A, G. done.
Qed.

(** X11: only the thread that holds the mutex is ever inside a callback:
    in every state the threads can reach, a call that does not hold the
    mutex has either not started or returned, and the holder has only
    writes of its own output and the release left to do. *)
Theorem only_the_holder_is_inside (calls : list invocation) (m : machine) :
  rtc step (start calls) m ->
  length (threads m) = length calls /\
  (forall i c, calls !! i = Some c -> holder m <> Some i ->
     threads m !! i = Some (body_of c) \/ threads m !! i = Some []) /\
  (forall h, holder m = Some h ->
     exists c post, calls !! h = Some c /\
       post `suffix_of` output_of c /\
       threads m !! h = Some ((Put <$> post) ++ [Unlock])).
Proof.
  intros Hm.
  destruct (reached_rtc _ _ Hm)
    as (done & cur & _ & _ & Hlen & _ & _ & Hhold & Hrest).
  split; [exact Hlen|]. split.
  - intros i c Hc Hi. destruct (Hrest i c Hc Hi) as [[_ H]|[_ H]]; eauto.
  - intros h Hh. destruct (Hhold h Hh) as (_ & c & post & Hc & Hout & Ht).
    exists c, post. split; [exact Hc|]. split; [by exists cur | exact Ht].
Qed.

(** Writes need no mutex: a thread can make the writes it has next,
    whoever holds the mutex. *)
Lemma run_puts_prefix i pre rest h : forall ths con,
  ths !! i = Some ((Put <$> pre) ++ rest) ->
  rtc step {| threads := ths; holder := h; console := con |}
           {| threads := <[i:=rest]> ths; holder := h;
              console := con ++ pre |}.
Proof.
  induction pre as [|p pre IH]; intros ths con Hi.
  - rewrite app_nil_r, list_insert_id by exact Hi. apply rtc_refl.
  - eapply rtc_l.
    + apply (step_put {| threads := ths; holder := h; console := con |}
               i p _ Hi).
    + cbn. replace (con ++ p :: pre) with ((con ++ [p]) ++ pre)
        by (by rewrite <- app_assoc).
      rewrite <- (list_insert_insert_eq ths i rest ((Put <$> pre) ++ rest)).
      apply IH. apply list_lookup_insert_eq. by eapply lookup_lt_Some.
Qed.

Lemma finish_holder h post ths con :
  ths !! h = Some ((Put <$> post) ++ [Unlock]) ->
  rtc step {| threads := ths; holder := Some h; console := con |}
           {| threads := <[h:=[]]> ths; holder := None;
              console := con ++ post |}.
Proof.
  intros Hh. etrans; [by apply run_puts_prefix|]. apply rtc_once.
  pose proof (step_unlock
    {| threads := <[h:=[Unlock]]> ths; holder := Some h;
       console := con ++ post |} h []) as S.
  cbn in S. rewrite list_insert_insert_eq in S. apply S; [|reflexivity].
  apply list_lookup_insert_eq. by eapply lookup_lt_Some.
Qed.

(** With the mutex free and every thread either returned or not started,
    the threads numbered below [n] can all be brought to return. *)
Lemma drain n : forall ths con,
  (forall i t, ths !! i = Some t -> t = [] \/ exists c, t = body_of c) ->
  exists ths' con',
    rtc step {| threads := ths; holder := None; console := con |}
             {| threads := ths'; holder := None; console := con' |} /\
    length ths' = length ths /\
    (forall i t, (i < n)%nat -> ths' !! i = Some t -> t = []) /\
    (forall i, (n <= i)%nat -> ths' !! i = ths !! i).
Proof.
  induction n as [|n IH]; intros ths con Hall.
  - exists ths, con. split; [apply rtc_refl|]. split; [reflexivity|].
    split; [intros; lia | reflexivity].
  - destruct (IH ths con Hall) as (ths1 & con1 & Hrun & Hlen & Hlow & Hhigh).
    destruct (ths1 !! n) as [t|] eqn:Hn.
    + assert (Ht : ths !! n = Some t) by (rewrite <- Hhigh by lia; done).
      destruct (Hall n t Ht) as [->|[c ->]].
      * exists ths1, con1. split; [exact Hrun|]. split; [exact Hlen|].
        split; [|intros i Hi; apply Hhigh; lia].
        intros i t Hi Hit. destruct (decide (i = n)) as [->|Hne];
          [congruence | apply (Hlow i); [lia | exact Hit]].
      * exists (<[n:=[]]> ths1), (con1 ++ output_of c).
        split; [etrans; [exact Hrun | by apply run_one]|].
        split; [by rewrite length_insert|]. split.
        -- intros i t Hi Hit. destruct (decide (i = n)) as [->|Hne].
           ++ rewrite list_lookup_insert_eq in Hit
                by (by eapply lookup_lt_Some). congruence.
           ++ rewrite list_lookup_insert_ne in Hit by congruence.
              apply (Hlow i); [lia | exact Hit].
        -- intros i Hi. rewrite list_lookup_insert_ne by lia.
           apply Hhigh. lia.
    + exists ths1, con1. split; [exact Hrun|]. split; [exact Hlen|].
      split; [|intros i Hi; apply Hhigh; lia].
      intros i t Hi Hit. destruct (decide (i = n)) as [->|Hne];
        [congruence | apply (Hlow i); [lia | exact Hit]].
Qed.

(** X12: the callbacks cannot block each other for good: from every
    state the threads can reach, all calls can still return. *)
Theorem callbacks_never_deadlock (calls : list invocation) (m : machine) :
  rtc step (start calls) m ->
  exists m', rtc step m m' /\ finished m'.
Proof.
  intros Hm.
  destruct (reached_rtc _ _ Hm)
    as (done & cur & _ & _ & Hlen & _ & _ & Hhold & Hrest).
  assert (Hfree : exists ths con,
    rtc step m {| threads := ths; holder := None; console := con |} /\
    forall i t, ths !! i = Some t -> t = [] \/ exists c, t = body_of c).
  { destruct m as [ths [h|] con]; cbn in *.
    - destruct (Hhold h eq_refl) as (_ & c & post & Hc & _ & Ht).
      exists (<[h:=[]]> ths), (con ++ post).
      split; [by apply finish_holder|]. intros i t Hi.
      destruct (decide (i = h)) as [->|Hne].
      + rewrite list_lookup_insert_eq in Hi by (by eapply lookup_lt_Some).
        left. congruence.
      + rewrite list_lookup_insert_ne in Hi by congruence.
        assert (Hil : (i < length calls)%nat)
          by (rewrite <- Hlen; by eapply lookup_lt_Some).
        destruct (lookup_lt_is_Some_2 calls i Hil) as [c' Hc'].
        destruct (Hrest i c' Hc') as [[_ H]|[_ H]]; [congruence| |];
          rewrite Hi in H; injection H as ->; eauto.
    - exists ths, con. split; [apply rtc_refl|]. intros i t Hi.
      assert (Hil : (i < length calls)%nat)
        by (rewrite <- Hlen; by eapply lookup_lt_Some).
      destruct (lookup_lt_is_Some_2 calls i Hil) as [c' Hc'].
      destruct (Hrest i c' Hc') as [[_ H]|[_ H]]; [discriminate| |];
        rewrite Hi in H; injection H as ->; eauto. }
  destruct Hfree as (ths & con & Hrun & Hall).
  destruct (drain (length ths) ths con Hall)
    as (ths' & con' & Hrun' & Hlen' & Hlow & _).
  exists {| threads := ths'; holder := None; console := con' |}.
  split; [etrans; eassumption|].
  unfold finished. cbn. apply Forall_lookup. intros i t Hi.
  apply (Hlow i); [|exact Hi]. rewrite <- Hlen'. by eapply lookup_lt_Some.
Qed.

(** X13: the mutex orders only the writers that take it.  Beside a call
    of a callback, a thread that sends one operand to the stream without
    the mutex can have it land at any point of the callback's output,
    the middle of its line included. *)
Theorem unguarded_write_can_split_a_line (c : invocation) (p : printable)
    (pre post : list printable) :
  output_of c = pre ++ post ->
  exists m,
    rtc step {| threads := [body_of c; [Put p]]; holder := None;
                console := [] |} m /\
    finished m /\ console m = pre ++ p :: post.
Proof.
  intros Hout. rewrite body_guarded, Hout. unfold lock_guard.
  exists {| threads := [[]; []]; holder := None;
            console := pre ++ p :: post |}.
  split; [|split; [by repeat constructor | reflexivity]].
  eapply rtc_l.
  { apply (step_lock {| threads := [Lock :: (Put <$> pre ++ post) ++ [Unlock];
                                    [Put p]];
                        holder := None; console := [] |} 0%nat _ eq_refl
             eq_refl). }
  cbn. rewrite fmap_app, <- app_assoc.
  etrans; [by apply (run_puts_prefix 0%nat pre)|]. cbn.
  eapply rtc_l.
  { apply (step_put {| threads := [(Put <$> post) ++ [Unlock]; [Put p]];
                       holder := Some 0%nat; console := pre |} 1%nat p []
             eq_refl). }
  cbn.
  replace (pre ++ p :: post) with ((pre ++ [p]) ++ post)
    by (by rewrite <- app_assoc).
  apply (finish_holder 0%nat post [(Put <$> post) ++ [Unlock]; []]).
  reflexivity.
Qed.

(** * The loop and the iterations that are followed *)

Section StillRunning.

Variable env : Env.
Variable request : StreamRequest.
Variable l r d : bool.

Lemma display_loop_unfinished fuel : forall k0,
  result (display_loop env request l r d fuel k0) = Unfinished <->
  forall k, (k0 <= k < k0 + fuel)%nat ->
    exists key, result (loop_body env request l r d k) = Ret key /\
                is_quit_key key = false.
Proof.
  induction fuel as [|fuel IH]; intros k0.
  - split; [intros _ k Hk; lia | reflexivity].
  - rewrite display_loop_S.
    destruct (result (loop_body env request l r d k0)) as [key| |] eqn:B.
    + destruct (is_quit_key key) eqn:Q.
      * split; [discriminate|]. intros H.
        destruct (H k0 ltac:(lia)) as (key' & B' & Q'). congruence.
      * rewrite IH. split.
        -- intros H k Hk. destruct (decide (k = k0)) as [->|Hne];
             [eauto | apply H; lia].
        -- intros H k Hk. apply H. lia.
    + split; [discriminate|]. intros H.
      destruct (H k0 ltac:(lia)) as (key' & B' & _). congruence.
    + destruct (loop_body_result env request l r d k0) as [E|E];
        rewrite B in E; discriminate.
Qed.

End StillRunning.

(** X15: the loop has no end of its own: the run is still in the loop
    after [fuel] iterations exactly when the device is open and each of
    these iterations read a key that is none of ESC, 'q' and 'Q'. *)
Theorem loop_runs_until_quit_key (env : Env) (fuel : nat) :
  result (main env fuel) = Unfinished <->
  is_opened env = true /\
  forall k, (k < fuel)%nat ->
    exists key, result (main_body env k) = Ret key /\
                ~ (key = 27 \/ key = 113 \/ key = 81).
Proof.
  pose proof (display_loop_unfinished env
    (configure_request (selected_request env))
    (supports env IMAGE_LEFT_COLOR) (supports env IMAGE_RIGHT_COLOR)
    (supports env IMAGE_DEPTH) fuel 0%nat) as U.
  fold (main_loop env fuel) in U.
  destruct (is_opened env) eqn:E.
  - rewrite main_opened by exact E. cbn [result snd]. split.
    + intros H. split; [reflexivity|].
      assert (R : result (main_loop env fuel) = Unfinished)
        by (destruct (result (main_loop env fuel)); done).
      intros k Hk. destruct (proj1 U R k ltac:(lia)) as (key & B & Q).
      exists key. split; [exact B|]. rewrite <- is_quit_key_spec. congruence.
    + intros [_ H]. rewrite (proj2 U); [reflexivity|].
      intros k Hk. destruct (H k ltac:(lia)) as (key & B & Q).
      exists key. split; [exact B|]. rewrite <- is_quit_key_spec in Q.
      by apply not_true_is_false.
  - rewrite main_not_opened by exact E. split; [discriminate | by intros []].
Qed.

End Sample.

(** * The properties at the sample environments *)

(** The request of [env_esc_second] as [main] submits it. *)
Lemma request_framerate_in_legal_range_witness :
  ApiConfigStreamRequest (value := Z)
    {| framerate := 30; color_mode := COLOR_RAW;
       depth_mode := DEPTH_COLORFUL; stream_mode := STREAM_2560x720;
       state_ae := true; state_awb := true |}
  ∈ trace (main env_esc_second 2) /\
  framerate_legal (configure_request (selected_request env_esc_second)) = true.
Proof.
  pose proof (request_framerate_in_legal_range (value := Z) env_esc_second 2)
    as (_ & _ & _ & _ & _ & L & _ & I & _).
  split; [exact I | exact L].
Defined.

Lemma open_failure_exits_1_before_windows_witness :
  is_opened env_closed = false /\
  result (main (value := Z) env_closed 3) = Ret 1 /\
  created_windows (trace (main (value := Z) env_closed 3)) = [].
Proof.
  split; [reflexivity|].
  destruct (open_failure_exits_1_before_windows (value := Z) env_closed 3
              eq_refl) as (R & _ & _ & W).
  split; [exact R | exact W].
Defined.

Lemma windows_created_iff_supported_witness :
  is_opened env_no_frames = true /\
  created_windows (trace (main (value := Z) env_no_frames 2)) =
  ["left color"; "depth"].
Proof.
  split; [reflexivity|].
  exact (proj1 (windows_created_iff_supported (value := Z) env_no_frames 2
                  eq_refl)).
Defined.

(** ESC behind a modifier bit ends the loop after the second iteration. *)
Lemma loop_left_iff_quit_key_witness :
  result (display_loop (value := Z) env_esc_second default_request
            true true true 5 0) = Ret 2%nat.
Proof.
  apply (proj2 (loop_left_iff_quit_key (value := Z) env_esc_second
                  default_request true true true)).
  exists 1%nat. split; [reflexivity|]. split; [lia|].
  intros j Hj. destruct j as [|[|j]].
  - exists (-1). split; [reflexivity|]. split; [|discriminate].
    intros [H|[H|H]]; discriminate H.
  - exists 27. split; [reflexivity|]. split; [reflexivity|]. by left.
  - lia.
Defined.

Lemma main_returns_0_or_1_witness :
  is_opened env_esc_second = true /\
  result (main (value := Z) env_esc_second 5) = Ret 0 /\
  result (main (value := Z) env_closed 5) = Ret 1.
Proof.
  split; [reflexivity|]. split.
  - apply (proj1 (proj2 (main_returns_0_or_1 (value := Z) env_esc_second 5))
             1%nat eq_refl); [lia|].
    intros j Hj. destruct j as [|[|j]].
    + exists (-1). split; [reflexivity|]. split; [|discriminate].
      intros [H|[H|H]]; discriminate H.
    + exists 27. split; [reflexivity|]. split; [reflexivity|]. by left.
    + lia.
  - exact (proj1 (main_returns_0_or_1 (value := Z) env_closed 5) eq_refl).
Defined.

Lemma depth_converted_iff_colorful_witness :
  frame_ready env_esc_second 0 IMAGE_DEPTH = true /\
  depth_mode default_request = DEPTH_COLORFUL /\
  ImageTo (value := Z) (Frame IMAGE_DEPTH 0) DEPTH_BGR
  ∈ trace (render_depth env_esc_second default_request true 0).
Proof.
  split; [reflexivity|]. split; [reflexivity|].
  destruct (depth_converted_iff_colorful (value := Z) env_esc_second
              default_request 0 eq_refl) as (_ & C & _).
  destruct (C eq_refl) as [[after E] _]. rewrite E.
  apply list_elem_of_further, list_elem_of_here.
Defined.

Lemma unavailable_stream_is_skipped_witness :
  frame_ready env_no_frames 0 IMAGE_LEFT_COLOR = false /\
  render_left (value := Z) env_no_frames true 0 {| updates := 1 |} =
  ([ApiGetStreamData IMAGE_LEFT_COLOR], Ret tt).
Proof.
  split; [reflexivity|].
  destruct (unavailable_stream_is_skipped (value := Z) env_no_frames
              default_request 0 {| updates := 1 |}) as (_ & L & _).
  exact (L eq_refl).
Defined.

(** C1 as the spec states it fails where a conversion fails: with the
    left frame there and [To] giving no image, the left step is not
    skipped, it ends in the dereference of the null result, and [main]
    with it. *)
Lemma conversion_failure_is_not_skipped :
  supports env_no_conversion IMAGE_LEFT_COLOR = true /\
  frame_ready env_no_conversion 0 IMAGE_LEFT_COLOR = true /\
  converts env_no_conversion (Frame IMAGE_LEFT_COLOR 0) COLOR_BGR = false /\
  render_left (value := Z) env_no_conversion true 0 {| updates := 1 |} =
  ([ApiGetStreamData IMAGE_LEFT_COLOR;
    ImageTo (Frame IMAGE_LEFT_COLOR 0) COLOR_BGR], NullDeref) /\
  result (render_left (value := Z) env_no_conversion true 0
            {| updates := 1 |}) <> Ret tt /\
  result (main (value := Z) env_no_conversion 1) = NullDeref.
Proof. repeat split; try reflexivity. discriminate. Qed.

(** An accelerometer sample and a gyroscope sample, with the SDK's
    flags 1 and 2 and axes that differ. *)
Lemma motion_branches_exclusive_witness :
  motion_callback (value := Z) 1 2
    {| flag := 1; ImuData_timestamp := 7; temperature := 36;
       accel := fun i => 10 + Z.of_nat i; gyro := fun i => 20 + Z.of_nat i |} =
  [Lock; Put (PStr "[accel] stamp: "); Put (PVal 7); Put (PStr ", x: ");
   Put (PVal 10); Put (PStr ", y: "); Put (PVal 11); Put (PStr ", z: ");
   Put (PVal 12); Put (PStr ", temp: "); Put (PVal 36); Put PEndl;
   Put PFlush; Unlock] /\
  1 <> 2 /\
  motion_callback (value := Z) 1 2
    {| flag := 2; ImuData_timestamp := 8; temperature := 37;
       accel := fun i => 10 + Z.of_nat i; gyro := fun i => 20 + Z.of_nat i |} =
  [Lock; Put (PStr "[gyro] stamp: "); Put (PVal 8); Put (PStr ", x: ");
   Put (PVal 20); Put (PStr ", y: "); Put (PVal 21); Put (PStr ", z: ");
   Put (PVal 22); Put (PStr ", temp: "); Put (PVal 37); Put PEndl;
   Put PFlush; Unlock].
Proof.
  split; [|split; [discriminate|]].
  - exact (proj1 (motion_branches_exclusive (value := Z) 1 2
      {| flag := 1; ImuData_timestamp := 7; temperature := 36;
         accel := fun i => 10 + Z.of_nat i;
         gyro := fun i => 20 + Z.of_nat i |}) eq_refl).
  - refine (proj1 (proj2 (motion_branches_exclusive (value := Z) 1 2
      {| flag := 2; ImuData_timestamp := 8; temperature := 37;
         accel := fun i => 10 + Z.of_nat i;
         gyro := fun i => 20 + Z.of_nat i |})) _ eq_refl).
    discriminate.
Defined.

Lemma other_flag_prints_nothing_witness :
  console_of (motion_callback (value := Z) 1 2
    {| flag := 11; ImuData_timestamp := 7; temperature := 36;
       accel := fun _ => 0; gyro := fun _ => 0 |}) = [PFlush].
Proof.
  refine (proj2 (other_flag_prints_nothing (value := Z) 1 2
    {| flag := 11; ImuData_timestamp := 7; temperature := 36;
       accel := fun _ => 0; gyro := fun _ => 0 |} _ _)); discriminate.
Defined.

(** Two calls, the second of which writes first. *)
Lemma callbacks_write_under_mutex_witness :
  let calls :=
    [OnImgInfo {| frame_id := 1; timestamp := 2; exposure_time := 3 |};
     OnStream {| type := 0; Image_frame_id := 1 |}] in
  exists m, rtc step (start (value := Z) 1 2 calls) m /\ finished m /\
            console m = in_order 1 2 calls [1%nat; 0%nat].
Proof.
  intros calls.
  apply (proj2 (proj2 (proj2
           (callbacks_write_under_mutex (value := Z) 1 2 calls)))).
  apply perm_swap.
Defined.

(** * The further properties at the sample environments *)

Ltac elem_computed :=
  match goal with
  | |- ?e ∈ ?t => let t' := eval vm_compute in t in change (e ∈ t')
  end;
  repeat first [apply list_elem_of_here | apply list_elem_of_further].

Lemma close_iff_returns_0_witness :
  result (main (value := Z) env_esc_second 5) = Ret 0 /\
  last (trace (main (value := Z) env_esc_second 5)) = Some ApiClose.
Proof.
  split; [reflexivity|].
  exact (proj1 (proj2 (close_iff_returns_0 (value := Z) env_esc_second 5))
           eq_refl).
Defined.


Lemma shown_images_are_given_witness :
  Imshow (value := Z) "depth" (ToMat (To (Frame IMAGE_DEPTH 0) DEPTH_BGR))
  ∈ trace (main env_esc_second 2) /\
  given env_esc_second (To (Frame IMAGE_DEPTH 0) DEPTH_BGR).
Proof.
  assert (H : Imshow (value := Z) "depth"
                (ToMat (To (Frame IMAGE_DEPTH 0) DEPTH_BGR))
              ∈ trace (main env_esc_second 2)) by elem_computed.
  split; [exact H|].
  exact (proj1 (shown_images_are_given (value := Z) env_esc_second 2 _ _ H)).
Defined.

Lemma overlays_match_their_image_witness :
  DrawInformation (value := Z)
    (ToMat (To (Frame IMAGE_LEFT_COLOR 1) COLOR_BGR)) {| updates := 2 |}
    BOTTOM_RIGHT ∈ trace (main env_esc_second 2) /\
  exists k, (k < 2)%nat /\
    To (Frame IMAGE_LEFT_COLOR 1) COLOR_BGR
    = To (Frame IMAGE_LEFT_COLOR k) COLOR_BGR /\
    {| updates := 2 |} = {| updates := S k |} /\
    BOTTOM_RIGHT = BOTTOM_RIGHT.
Proof.
  assert (H : DrawInformation (value := Z)
                (ToMat (To (Frame IMAGE_LEFT_COLOR 1) COLOR_BGR))
                {| updates := 2 |} BOTTOM_RIGHT
              ∈ trace (main env_esc_second 2)) by elem_computed.
  split; [exact H|].
  exact (proj1 (overlays_match_their_image (value := Z) env_esc_second 2)
           _ _ _ H).
Defined.

Lemma one_fetch_and_one_poll_per_iteration_witness :
  result (main_loop (value := Z) env_esc_second 5) = Ret 2%nat /\
  count_if is_WaitKey (trace (main (value := Z) env_esc_second 5)) = 2%nat /\
  count_if (is_GetStreamData IMAGE_DEPTH)
    (trace (main (value := Z) env_esc_second 5)) = 2%nat.
Proof.
  split; [reflexivity|].
  destruct (one_fetch_and_one_poll_per_iteration (value := Z)
              env_esc_second 5) as (_ & _ & _ & H).
  destruct (H 2%nat eq_refl eq_refl) as (_ & _ & Hk & Hg).
  split; [exact Hk | exact (Hg IMAGE_DEPTH)].
Defined.

Lemma null_deref_only_after_failed_conversion_witness :
  result (main (value := Z) env_no_conversion 3) = NullDeref /\
  exists s k f,
    last (trace (main (value := Z) env_no_conversion 3))
    = Some (ImageTo (Frame s k) f).
Proof.
  split; [reflexivity|].
  destruct (proj1 (null_deref_only_after_failed_conversion (value := Z)
                     env_no_conversion 3) eq_refl)
    as (_ & s & k & f & _ & H & _).
  exists s, k, f. exact H.
Defined.

Lemma quit_key_ends_main_witness :
  to_char (wait_key env_esc_second 1) = 27 /\
  result (main (value := Z) env_esc_second 5) = Ret 0.
Proof.
  split; [reflexivity|].
  refine (proj1 (quit_key_ends_main (value := Z) env_esc_second 5 1
                   eq_refl _ _ _)).
  - intros s j f. reflexivity.
  - lia.
  - left. reflexivity.
Defined.

(** Two calls; the second has taken the mutex. *)
Lemma only_the_holder_is_inside_witness :
  let calls :=
    [OnImgInfo {| frame_id := 1; timestamp := 2; exposure_time := 3 |};
     OnStream {| type := 0; Image_frame_id := 1 |}] in
  let m :=
    {| threads := <[1%nat:=[Put (PStr "  ["); Put (PVal 0);
                            Put (PStr "] fid: "); Put (PVal 1); Put PEndl;
                            Put PFlush; Unlock]]>
                    (threads (start (value := Z) 1 2 calls));
       holder := Some 1%nat; console := [] |} in
  rtc step (start 1 2 calls) m /\
  (threads m !! 0%nat = Some (body_of 1 2 (OnImgInfo
      {| frame_id := 1; timestamp := 2; exposure_time := 3 |})) \/
   threads m !! 0%nat = Some []).
Proof.
  intros calls m.
  assert (H : rtc step (start 1 2 calls) m).
  { apply rtc_once. exact (step_lock (start 1 2 calls) 1%nat _ eq_refl eq_refl). }
  split; [exact H|].
  refine (proj1 (proj2 (only_the_holder_is_inside (value := Z) 1 2 calls m H))
            0%nat _ eq_refl _).
  discriminate.
Defined.

Lemma callbacks_never_deadlock_witness :
  let calls :=
    [OnMotion (value := Z)
       {| flag := 1; ImuData_timestamp := 7; temperature := 36;
          accel := fun _ => 0; gyro := fun _ => 0 |};
     OnStream {| type := 0; Image_frame_id := 1 |}] in
  let m :=
    {| threads := <[1%nat:=[Put (PStr "  ["); Put (PVal 0);
                            Put (PStr "] fid: "); Put (PVal 1); Put PEndl;
                            Put PFlush; Unlock]]>
                    (threads (start 1 2 calls));
       holder := Some 1%nat; console := [] |} in
  rtc step (start 1 2 calls) m /\
  exists m', rtc step m m' /\ finished m'.
Proof.
  intros calls m.
  assert (H : rtc step (start 1 2 calls) m).
  { apply rtc_once. exact (step_lock (start 1 2 calls) 1%nat _ eq_refl eq_refl). }
  split; [exact H|].
  exact (callbacks_never_deadlock (value := Z) 1 2 calls m H).
Defined.

(** main's greeting in the middle of an image-info line. *)
Lemma unguarded_write_can_split_a_line_witness :
  let c := OnImgInfo (value := Z)
             {| frame_id := 1; timestamp := 2; exposure_time := 3 |} in
  exists m,
    rtc step {| threads := [body_of 1 2 c;
                            [Put (PStr "Open device success")]];
                holder := None; console := [] |} m /\
    finished m /\
    console m =
    [PStr "  [img_info] fid: "; PVal 1; PStr "Open device success";
     PStr ", stamp: "; PVal 2; PStr ", expos: "; PVal 3; PEndl; PFlush].
Proof.
  intros c.
  exact (unguarded_write_can_split_a_line (value := Z) 1 2 c
           (PStr "Open device success")
           [PStr "  [img_info] fid: "; PVal 1]
           [PStr ", stamp: "; PVal 2; PStr ", expos: "; PVal 3; PEndl; PFlush]
           eq_refl).
Defined.

Lemma loop_runs_until_quit_key_witness :
  result (main (value := Z) env_esc_second 1) = Unfinished /\
  exists key, result (main_body (value := Z) env_esc_second 0) = Ret key /\
              ~ (key = 27 \/ key = 113 \/ key = 81).
Proof.
  split; [reflexivity|].
  exact (proj2 (proj1 (loop_runs_until_quit_key (value := Z)
                         env_esc_second 1) eq_refl) 0%nat ltac:(lia)).
Defined.
